(** * TripletNet: the hard-negative-mining loss and the ground-truth box filter

    A shallow embedding of

    - [src/Dataset/dataset.py], [VOCDataset.filter], and
    - [src/utils/loss.py], [MultiBoxLoss._hard_negative_mining] and
      [MultiBoxLoss.forward],

    together with the properties the specification states about them.

    Numbers.  Every floating-point quantity of the source (box coordinates,
    logits, location deltas, losses) is a real number here: [+], [*], [/],
    [sqrt], [exp] and [ln] are the exact operations, so rounding, infinities
    and NaN are outside the model.  Integer tensors (labels, ranks, counts)
    are [Z] or [nat].

    Tensors.  A tensor of shape [B, A] is a [list (list _)] (one inner list
    per sample), a tensor of shape [B, A, X] a [list (list (list _))].
    [forward] is called with [xloc] and [loc] of shape [B, A, 4], [xconf] of
    shape [B, A, C] and [label] of shape [B, A]; torch raises on other
    shapes, and the properties that depend on the shapes state them
    ([shape2], [shape3]).

    Exceptions.  A function that can raise on well-shaped input returns an
    [option], [None] for the exception: a class index outside [0, C) in the
    cross-entropy, a [view(-1, 4)] of a number of entries that 4 does not
    divide, [np.max] of an empty array, an image array whose shape cannot be
    unpacked.

    Sorting.  [torch.sort] leaves the order of equal keys open.  The sort of
    the loss keys is therefore a parameter [S : sorter] of the model, any
    function with the contract of [sort(dim=1)[1]]; the properties hold for
    every such function, and [stable] is one. *)

From Stdlib Require Import Reals.Reals Lra Lia ZArith List Bool Permutation Sorted.
From Stdlib Require String Ascii.
Import ListNotations.

Open Scope R_scope.

(** ** Comparisons of reals as booleans *)

Definition Rltb (a b : R) : bool := if Rlt_dec a b then true else false.
Definition Rleb (a b : R) : bool := if Rle_dec a b then true else false.

(** * [VOCDataset.filter] *)

Module VOCDataset.

(** One row of the [boxes] array: [box[0]], [box[1]], [box[2]], [box[3]]. *)
Record box : Type := mkBox { x1 : R; y1 : R; x2 : R; y2 : R }.


(** Lines 170-177: [h, w] from [img.shape].  [None] stands for the Python
    exception ([IndexError] on [shape[0]] or [shape[2]], [ValueError] on
    unpacking [img.shape[1:]] of a rank above 3). *)
Definition image_hw (shape : list nat) : option (nat * nat) :=
  match shape with
  | [h; w] => Some (h, w)
  | s0 :: s1 :: s2 :: rest =>
      if (s2 <? s0)%nat then Some (s0, s1)
      else match rest with
           | [] => Some (s1, s2)
           | _ :: _ => None
           end
  | _ => None
  end.

(** [np.max(boxes)]: the largest entry of the whole array; numpy raises on an
    empty array ([None]). *)
Definition coords (b : box) : list R := [x1 b; y1 b; x2 b; y2 b].

Definition np_max (boxes : list box) : option R :=
  match flat_map coords boxes with
  | [] => None
  | c :: cs => Some (fold_left Rmax cs c)
  end.

(** The body of the [for] loop (lines 181-187) as a state transformer on the
    two accumulators [boxes_] and [labels_]; [boxes] is the whole input
    array, which [np.max] reads at every iteration that reaches it. *)
Fixpoint filter_loop (h w : nat) (boxes : list box) (items : list (box * Z))
    (boxes_ : list box) (labels_ : list Z)
  : option (list box * list Z) :=
  match items with
  | [] => Some (boxes_, labels_)
  | (b, l) :: rest =>
      if Rleb (Rmin (x2 b - x1 b) (y2 b - y1 b)) 0 then
        filter_loop h w boxes rest boxes_ labels_
      else
        match np_max boxes with
        | None => None
        | Some m =>
            if Rltb m 1 &&
               Rltb (sqrt ((x2 b - x1 b) * INR w * (y2 b - y1 b) * INR h)) 8
            then filter_loop h w boxes rest boxes_ labels_
            else filter_loop h w boxes rest (boxes_ ++ [b]) (labels_ ++ [l])
        end
  end.

(** [filter(self, img, boxes, labels)]; of [img] only [img.shape] is read. *)
Definition filter (shape : list nat) (boxes : list box) (labels : list Z)
  : option (list box * list Z) :=
  match image_hw shape with
  | None => None
  | Some (h, w) => filter_loop h w boxes (combine boxes labels) [] []
  end.

(** *** The tests of the loop, by name *)

Definition width (b : box) : R := x2 b - x1 b.
Definition height (b : box) : R := y2 b - y1 b.

(** Geometric mean of the pixel dimensions of a box given in normalized
    units, for an image of [w] by [h] pixels. *)
Definition pixel_geomean (h w : nat) (b : box) : R :=
  sqrt (width b * INR w * height b * INR h).

Definition positive_size (b : box) : bool :=
  negb (Rleb (Rmin (width b) (height b)) 0).

Definition small (h w : nat) (b : box) : bool := Rltb (pixel_geomean h w b) 8.

(** Every coordinate of every box is below 1 (normalized units). *)
Definition normalized (boxes : list box) : Prop :=
  Forall (fun b => Forall (fun c => c < 1) (coords b)) boxes.

(** The decision of one iteration when [np.max(boxes)] is [m]: [true] when
    the pair is appended to the outputs. *)
Definition keep (m : R) (h w : nat) (it : box * Z) : bool :=
  positive_size (fst it) && negb (Rltb m 1 && small h w (fst it)).

Definition unzip (l : list (box * Z)) : list box * list Z :=
  (map fst l, map snd l).

End VOCDataset.

(** * [MultiBoxLoss] *)

(** ** The error monad: [None] is a raised exception *)

Definition bind {A B : Type} (m : option A) (f : A -> option B) : option B :=
  match m with
  | Some a => f a
  | None => None
  end.

Notation "x <- m ;; f" := (bind m (fun x => f))
  (at level 61, m at next level, right associativity).

Fixpoint mapM {A B : Type} (f : A -> option B) (l : list A) : option (list B) :=
  match l with
  | [] => Some []
  | a :: l' => b <- f a ;; bs <- mapM f l' ;; Some (b :: bs)
  end.

(** ** Lists as tensors *)

Definition tensor2 (A : Type) : Type := list (list A).
Definition tensor3 (A : Type) : Type := list (list (list A)).

Fixpoint map2 {A B C : Type} (f : A -> B -> C) (l : list A) (m : list B) : list C :=
  match l, m with
  | a :: l', b :: m' => f a b :: map2 f l' m'
  | _, _ => []
  end.

Definition Rsum (l : list R) : R := fold_right Rplus 0 l.
Definition Zsum (l : list Z) : Z := fold_right Z.add 0%Z l.

(** [t.sum()] of a tensor of shape [B, A]. *)
Definition sum_all (t : tensor2 R) : R := Rsum (concat t).

(** [t.float()] and [t.long()] of a mask. *)
Definition b2r (b : bool) : R := if b then 1 else 0.
Definition b2z (b : bool) : Z := if b then 1%Z else 0%Z.
Definition to_float (t : tensor2 bool) : tensor2 R := map (map b2r) t.

(** [t.transpose(0, 1)] of a matrix. *)
Fixpoint transpose {T : Type} (m : list (list T)) : list (list T) :=
  match m with
  | [] => []
  | row :: rest =>
      match rest with
      | [] => map (fun v => [v]) row
      | _ :: _ => map2 cons row (transpose rest)
      end
  end.

(** [t.transpose(1, 2)] of a tensor of shape [B, A, C]. *)
Definition transpose12 {T : Type} (t : tensor3 T) : tensor3 T := map transpose t.

(** ** [torch.sort] *)

(** Stable insertion sort of the positions of a row by their keys:
    the indices [t.sort()[1]] would return with ties kept in input order. *)
Section Argsort.
Context {K : Type} (leb : K -> K -> bool).

Fixpoint insert (x : K * nat) (l : list (K * nat)) : list (K * nat) :=
  match l with
  | [] => [x]
  | y :: l' => if leb (fst x) (fst y) then x :: l else y :: insert x l'
  end.

Definition sort_pairs (l : list (K * nat)) : list (K * nat) :=
  fold_right insert [] l.

Definition argsort (l : list K) : list nat :=
  map snd (sort_pairs (combine l (seq 0 (length l)))).
End Argsort.

(** The order of two (key, position) pairs. *)
Definition key_le {K : Type} (le : K -> K -> Prop) (x y : K * nat) : Prop :=
  le (fst x) (fst y).

(** [torch.sort] does not fix the order of equal keys.  For the sort of the
    float keys the model therefore takes any function that meets the
    contract of [t.sort(dim=1)[1]] on a row: the result is a permutation of
    the positions of the row, and reading the row through it is ascending. *)
Record sorter : Type := mkSorter {
  sort_indices : list R -> list nat;
  sort_indices_perm :
    forall l, Permutation (sort_indices l) (seq 0 (length l));
  sort_indices_asc :
    forall l i j, (i <= j < length l)%nat ->
      nth (nth i (sort_indices l) 0%nat) l 0
      <= nth (nth j (sort_indices l) 0%nat) l 0
}.

Module MultiBoxLoss.

(** A loss value as [_hard_negative_mining] and the masking in [forward]
    receive it: a 0-dimensional tensor, or one value per anchor.  The
    product with a tensor of shape [B, A] broadcasts the first. *)
Inductive loss_tensor : Type :=
| Scalar (s : R)
| PerAnchor (m : tensor2 R).

Definition bmul (loss : loss_tensor) (t : tensor2 R) : tensor2 R :=
  match loss with
  | Scalar s => map (map (fun v => s * v)) t
  | PerAnchor m => map2 (map2 Rmult) m t
  end.

(** *** [torch.nn.CrossEntropyLoss(ignore_index)], reduction ['mean'] *)

(** [-log_softmax(logits)[t]]. *)
Definition nll (logits : list R) (t : nat) : R :=
  ln (Rsum (map exp logits)) - nth t logits 0.

(** Loss and weight of one element: a target equal to [ignore_index] has
    weight 0, a class index outside [0, C) raises. *)
Definition ce_elem (ignore_index : Z) (logits : list R) (t : Z) : option (R * R) :=
  if (t =? ignore_index)%Z then Some (0, 0)
  else if ((0 <=? t) && (t <? Z.of_nat (length logits)))%Z
       then Some (nll logits (Z.to_nat t), 1)
       else None.

(** One sample: [x] has shape [C, A] (classes first), [target] shape [A]. *)
Definition ce_sample (ignore_index : Z) (x : list (list R)) (target : list Z)
  : option (list (R * R)) :=
  mapM (fun '(a, t) => ce_elem ignore_index (map (fun row => nth a row 0) x) t)
       (combine (seq 0 (length target)) target).

(** [input] has shape [B, C, A], [target] shape [B, A]; the result is the
    weighted mean over all elements of the batch, a scalar.  (Over no
    element at all the mean is [0 / 0]: NaN in torch, 0 here; [forward]
    then sums over no anchor, which is 0 in both.) *)
Definition CrossEntropyLoss (ignore_index : Z) (input : tensor3 R) (target : tensor2 Z)
  : option R :=
  elems <- mapM (fun '(x, t) => ce_sample ignore_index x t) (combine input target) ;;
  Some (Rsum (map fst (concat elems)) / Rsum (map snd (concat elems))).

(** *** [F.smooth_l1_loss(input, target, size_average=False)] *)

Definition smooth_l1 (d : R) : R :=
  if Rltb (Rabs d) 1 then / 2 * d * d else Rabs d - / 2.

Definition smooth_l1_loss (input target : list (list R)) : R :=
  Rsum (map (fun '(a, b) => smooth_l1 (a - b)) (combine (concat input) (concat target))).

(** *** Indexing *)

(** [pos.unsqueeze(-1).expand_as(x)]. *)
Definition expand_as (pos : tensor2 bool) (x : tensor3 R) : tensor3 bool :=
  map2 (map2 (fun p row => map (fun _ => p) row)) pos x.

(** [x[mask]]: the entries of [x] at which [mask] holds, in row-major order. *)
Definition pick (vb : R * bool) : list R :=
  let '(v, b) := vb in if b then [v] else [].

Definition masked_select (x : tensor3 R) (mask : tensor3 bool) : list R :=
  flat_map pick
           (combine (concat (map (@concat R) x)) (concat (map (@concat bool) mask))).

(** [t.view(-1, 4)]; raises unless the number of entries is a multiple of 4. *)
Fixpoint view4 (l : list R) : option (list (list R)) :=
  match l with
  | [] => Some []
  | a :: b :: c :: d :: rest => rows <- view4 rest ;; Some ([a; b; c; d] :: rows)
  | _ => None
  end.

(** *** [_hard_negative_mining(self, loss, pos, neg, k)] *)

Definition rank_of (S : sorter) (keys : list R) : list nat :=
  argsort Nat.leb (sort_indices S keys).

Definition _hard_negative_mining (S : sorter) (loss : loss_tensor)
    (pos neg : tensor2 bool) (k : Z) : tensor2 bool :=
  let rank := map (rank_of S) (bmul loss (map (map (fun n => -1 * b2r n)) neg)) in
  let limit := map (fun row => (Zsum (map b2z row) * k)%Z) pos in
  map2 (fun r lim => map (fun i => (Z.of_nat i <? lim)%Z) r) rank limit.

(** *** [forward(self, xloc, xconf, loc, label, k=3)] *)

(** [pos + hard_neg], then [.gt(0)]. *)
Definition mask_add (p q : tensor2 bool) : tensor2 Z :=
  map2 (map2 (fun a b => (b2z a + b2z b)%Z)) p q.
Definition gt0 (t : tensor2 Z) : tensor2 bool := map (map (fun v => (0 <? v)%Z)) t.
Definition eq0 (t : tensor2 Z) : tensor2 bool := map (map (fun v => (v =? 0)%Z)) t.
Definition clamp_min0 (t : tensor2 Z) : tensor2 Z := map (map (Z.max 0)) t.

Definition eps : R := 1 / 1000.

Definition forward (S : sorter) (xloc xconf loc : tensor3 R) (label : tensor2 Z) (k : Z)
  : option (R * R) :=
  let pos := gt0 label in
  let neg := eq0 label in
  let label := clamp_min0 label in
  let pos_idx := expand_as pos xloc in
  input <- view4 (masked_select xloc pos_idx) ;;
  target <- view4 (masked_select loc pos_idx) ;;
  let loc_loss := smooth_l1_loss input target in
  conf_loss <- CrossEntropyLoss (-1) (transpose12 xconf) label ;;
  let hard_neg := _hard_negative_mining S (Scalar conf_loss) pos neg k in
  let conf_loss := bmul (Scalar conf_loss) (to_float (gt0 (mask_add pos hard_neg))) in
  let conf_loss := sum_all conf_loss in
  let N := sum_all (to_float pos) + eps in
  Some (loc_loss / N, conf_loss / N).

(** *** The quantities the properties speak of *)

(** Number of anchors that a row of a mask marks. *)
Definition count_true (row : list bool) : Z := Zsum (map b2z row).

(** Number of positive anchors of the batch. *)
Definition count_positive (label : tensor2 Z) : Z :=
  Zsum (map count_true (gt0 label)).

(** Line 29: the mask [(pos + hard_neg).gt(0)] and the tensor of the terms
    [conf_loss * mask.float()] that line 30 sums, for the value [conf_loss]
    that line 27 produced. *)
Definition selected (S : sorter) (conf_loss : R) (label : tensor2 Z) (k : Z)
  : tensor2 bool :=
  gt0 (mask_add (gt0 label)
         (_hard_negative_mining S (Scalar conf_loss) (gt0 label) (eq0 label) k)).

Definition conf_terms (S : sorter) (conf_loss : R) (label : tensor2 Z) (k : Z)
  : tensor2 R :=
  bmul (Scalar conf_loss) (to_float (selected S conf_loss label k)).

(** Lines 22-24 and lines 27-30: the two sums before the division by [N]. *)
Definition loc_loss_sum (xloc loc : tensor3 R) (label : tensor2 Z) : option R :=
  input <- view4 (masked_select xloc (expand_as (gt0 label) xloc)) ;;
  target <- view4 (masked_select loc (expand_as (gt0 label) xloc)) ;;
  Some (smooth_l1_loss input target).

Definition conf_loss_sum (S : sorter) (xconf : tensor3 R) (label : tensor2 Z) (k : Z)
  : option R :=
  conf_loss <- CrossEntropyLoss (-1) (transpose12 xconf) (clamp_min0 label) ;;
  Some (sum_all (conf_terms S conf_loss label k)).

Definition Reqb (a b : R) : bool := if Req_dec_T a b then true else false.

(** Number of negative anchors (label 0) of a sample whose term in the
    classification loss is not zero. *)
Definition nonzero_negatives (labels : list Z) (terms : list R) : Z :=
  Zsum (map2 (fun l t => b2z ((l =? 0)%Z && negb (Reqb t 0))) labels terms).

(** *** One sample at a time, for a scalar loss *)

(** The row of [loss * (-1 * neg.float())]. *)
Definition neg_keys (conf_loss : R) (labels : list Z) : list R :=
  map (fun v => conf_loss * v)
      (map (fun n => -1 * b2r n) (map (fun v => (v =? 0)%Z) labels)).

Definition hard_neg_row (S : sorter) (conf_loss : R) (k : Z) (labels : list Z)
  : list bool :=
  map (fun i => (Z.of_nat i <? count_true (map (fun v => (0 <? v)%Z) labels) * k)%Z)
      (rank_of S (neg_keys conf_loss labels)).

Definition selected_row (S : sorter) (conf_loss : R) (k : Z) (labels : list Z)
  : list bool :=
  map (fun v => (0 <? v)%Z)
      (map2 (fun a b => (b2z a + b2z b)%Z)
            (map (fun v => (0 <? v)%Z) labels) (hard_neg_row S conf_loss k labels)).

(** Shapes. *)
Definition shape2 {T : Type} (B A : nat) (t : tensor2 T) : Prop :=
  length t = B /\ Forall (fun row => length row = A) t.

Definition shape3 {T : Type} (B A X : nat) (t : tensor3 T) : Prop :=
  length t = B /\ Forall (shape2 A X) t.

(** The loss handed to [_hard_negative_mining] broadcasts against [neg]. *)
Definition loss_shape (loss : loss_tensor) (B A : nat) : Prop :=
  match loss with
  | Scalar _ => True
  | PerAnchor m => shape2 B A m
  end.

(** The entries of the rows of one sample that its mask row selects. *)
Definition msel_sample (prow : list bool) (xs : list (list R)) : list R :=
  concat (map2 (fun (p : bool) row => if p then row else []) prow xs).

(** Smooth-L1 distance over the coordinates of one anchor, and its sum over
    the positive anchors of a sample and of the batch. *)
Definition anchor_loc_loss (x y : list R) : R :=
  Rsum (map2 (fun a b => smooth_l1 (a - b)) x y).

Definition sample_loc_loss (labels : list Z) (x y : list (list R)) : R :=
  Rsum (map2 (fun l xy => if (0 <? l)%Z then anchor_loc_loss (fst xy) (snd xy) else 0)
             labels (combine x y)).

Definition positive_loc_loss (label : tensor2 Z) (xloc loc : tensor3 R) : R :=
  Rsum (map2 (fun labels xy => sample_loc_loss labels (fst xy) (snd xy))
             label (combine xloc loc)).

(** *** The classification loss as the specification words it *)

(** Cross-entropy of one anchor over its own logits, for its clamped label. *)
Definition anchor_ce (logits : list R) (l : Z) : R :=
  nll logits (Z.to_nat (Z.max 0 l)).

(** Sum of the anchors' own cross-entropies over the anchors a mask marks. *)
Definition per_anchor_sum (mask : list bool) (x : list (list R)) (labels : list Z) : R :=
  Rsum (map2 (fun (m : bool) ce => if m then ce else 0) mask (map2 anchor_ce x labels)).

Definition per_anchor_conf_sum (mask : tensor2 bool) (xconf : tensor3 R)
    (label : tensor2 Z) : R :=
  Rsum (map2 (fun m xl => per_anchor_sum m (fst xl) (snd xl)) mask (combine xconf label)).

End MultiBoxLoss.

(** ** Example batches *)

Module Batches.

(** Location deltas of [n] anchors, prediction equal to target. *)
Definition zeros (n : nat) : tensor3 R := [repeat [0; 0; 0; 0] n].

(** One positive anchor of class 1 and four negatives; every anchor has the
    logits [1, 0] over the classes 0 (background) and 1. *)
Definition label_a : tensor2 Z := [[1; 0; 0; 0; 0]%Z].
Definition xconf_a : tensor3 R := [[[1; 0]; [1; 0]; [1; 0]; [1; 0]; [1; 0]]].

(** One positive anchor and two negatives, the second negative with the
    larger cross-entropy; and the same with the two negatives exchanged. *)
Definition label_b : tensor2 Z := [[1; 0; 0]%Z].
Definition xconf_b : tensor3 R := [[[1; 0]; [1; 0]; [0; 1]]].
Definition xconf_b' : tensor3 R := [[[1; 0]; [0; 1]; [1; 0]]].

(** One positive anchor, three negatives and one anchor to ignore; and the
    same with other logits at the anchor to ignore. *)
Definition label_c : tensor2 Z := [[1; 0; 0; 0; -1]%Z].
Definition xconf_c : tensor3 R := [[[1; 0]; [1; 0]; [1; 0]; [1; 0]; [1; 0]]].
Definition xconf_c' : tensor3 R := [[[1; 0]; [1; 0]; [1; 0]; [1; 0]; [0; 1]]].

(** [log(exp(1) + exp(0))], the log-sum-exp of the logits [1, 0]. *)
Definition lse10 : R := ln (exp 1 + (exp 0 + 0)).

End Batches.

(** * The rest of the two files *)

(** ** More on [MultiBoxLoss] and [VOCDataset.filter] *)

Module MultiBoxLossExt.
Import MultiBoxLoss.

(** The loss value of anchor [a] of sample [b]. *)
Definition loss_at (loss : loss_tensor) (b a : nat) : R :=
  match loss with
  | Scalar s => s
  | PerAnchor m => nth a (nth b m []) 0
  end.



End MultiBoxLossExt.

Module VOCDatasetExt.
Import VOCDataset.

(** Boxes in pixel units: every coordinate is a nonnegative integer. *)
Definition pixel_boxes (boxes : list box) : Prop :=
  Forall (fun b => Forall (fun c => exists n : Z, (0 <= n)%Z /\ c = IZR n) (coords b))
         boxes.

End VOCDatasetExt.

(** * [dict] *)

(** A Python [dict] as an association list in insertion order, one entry per
    key: [d[k] = v] overwrites in place or appends, [d[k]] reads ([None] is
    [KeyError]), [dict(items)] inserts the items from left to right. *)
Section Dict.
Context {K V : Type} (eqb : K -> K -> bool).

Fixpoint dict_set (d : list (K * V)) (k : K) (v : V) : list (K * V) :=
  match d with
  | [] => [(k, v)]
  | (k', v') :: d' => if eqb k k' then (k, v) :: d' else (k', v') :: dict_set d' k v
  end.

Fixpoint dict_get (d : list (K * V)) (k : K) : option V :=
  match d with
  | [] => None
  | (k', v') :: d' => if eqb k k' then Some v' else dict_get d' k
  end.

Definition dict_of (items : list (K * V)) : list (K * V) :=
  fold_left (fun d kv => dict_set d (fst kv) (snd kv)) items [].
End Dict.

(** [enumerate(t)]. *)
Definition enumerate {T : Type} (t : list T) : list (nat * T) :=
  combine (seq 0 (length t)) t.

(** * [VOC] *)

Module VOC.
Import String.StringSyntax.
Local Open Scope string_scope.

Definition N_CLASSES : nat := 20.

Definition CLASSES : list String.string :=
  ["aeroplane"; "bicycle"; "bird"; "boat";
   "bottle"; "bus"; "car"; "cat"; "chair";
   "cow"; "diningtable"; "dog"; "horse";
   "motorbike"; "person"; "pottedplant";
   "sheep"; "sofa"; "train"; "tvmonitor"].

(** [dict(map(reversed, enumerate(classes)))] and [dict(enumerate(classes))],
    for the tuple [classes]. *)
Definition label_to_id_of (classes : list String.string) : list (String.string * nat) :=
  dict_of String.eqb (map (fun ic => (snd ic, fst ic)) (enumerate classes)).

Definition id_to_label_of (classes : list String.string) : list (nat * String.string) :=
  dict_of Nat.eqb (enumerate classes).

Definition label_to_id : list (String.string * nat) := label_to_id_of CLASSES.
Definition id_to_label : list (nat * String.string) := id_to_label_of CLASSES.

(** No name occurs twice in [l]. *)
Fixpoint distinctb (l : list String.string) : bool :=
  match l with
  | [] => true
  | a :: l' => negb (existsb (String.eqb a) l') && distinctb l'
  end.

End VOC.

(** * [ParseAnnotation] *)

Module ParseAnnotation.

(** What the ElementTree calls of the loop yield for one [<object>]:
    [int(obj.find('difficult').text)], [obj.find('name').text] and
    [int(bndbox.find(tag).text)] for the four tags, each [None] when the
    expression raises (a missing element, a text that is no integer). *)
Record xml_object : Type := mkObject {
  difficult : option Z;
  name : option String.string;
  xmin : option Z;
  ymin : option Z;
  xmax : option Z;
  ymax : option Z
}.

Section Call.
(** [str.lower().strip()], Python's own. *)
Variable lower_strip : String.string -> String.string.

(** The loop of [__call__] on [tree.iter('object')], with the accumulators
    [bboxes] and [labels]; [self.classes] and [self.label_to_id] are those of
    [VOC]. *)
Fixpoint call_loop (keep_difficult : bool) (objs : list xml_object)
    (bboxes : list (list Z)) (labels : list nat)
  : option (list (list Z) * list nat) :=
  match objs with
  | [] => Some (bboxes, labels)
  | obj :: rest =>
      d <- difficult obj ;;
      if negb keep_difficult && (d =? 1)%Z then
        call_loop keep_difficult rest bboxes labels
      else
        n <- name obj ;;
        let label := lower_strip n in
        if negb (existsb (String.eqb label) VOC.CLASSES) then
          call_loop keep_difficult rest bboxes labels
        else
          label <- dict_get String.eqb VOC.label_to_id label ;;
          bbox <- mapM (fun t => v <- t ;; Some (v - 1)%Z)
                       [xmin obj; ymin obj; xmax obj; ymax obj] ;;
          call_loop keep_difficult rest (bboxes ++ [bbox]) (labels ++ [label])
  end.

Definition call (keep_difficult : bool) (objs : list xml_object)
  : option (list (list Z) * list nat) :=
  call_loop keep_difficult objs [] [].
End Call.

(** The outputs are paired, the labels are class ids and every row has four
    entries, each with the property [Q]. *)
Definition rows_ok (Q : Z -> Prop) (bboxes : list (list Z)) (labels : list nat) : Prop :=
  length bboxes = length labels /\
  Forall (fun l => (l < VOC.N_CLASSES)%nat) labels /\
  Forall (fun row => length row = 4%nat /\ Forall Q row) bboxes.

(** Every coordinate of the object that parses has [Q] once 1 is taken off. *)
Definition coords_ok (Q : Z -> Prop) (obj : xml_object) : Prop :=
  Forall (fun t => forall v, t = Some v -> Q (v - 1)%Z)
         [xmin obj; ymin obj; xmax obj; ymax obj].

(** Every field of the object parses. *)
Definition well_formed (obj : xml_object) : Prop :=
  difficult obj <> None /\ name obj <> None /\
  xmin obj <> None /\ ymin obj <> None /\ xmax obj <> None /\ ymax obj <> None.

Definition is_difficult (obj : xml_object) : bool :=
  match difficult obj with
  | Some d => (d =? 1)%Z
  | None => false
  end.

End ParseAnnotation.

(** * [VOCDataset.__getitem__], the detection targets *)

Module GetItem.

(** A row of the [bboxes] array as [filter] indexes it. *)
Definition row_box (row : list Z) : VOCDataset.box :=
  VOCDataset.mkBox (IZR (nth 0 row 0%Z)) (IZR (nth 1 row 0%Z))
                   (IZR (nth 2 row 0%Z)) (IZR (nth 3 row 0%Z)).

(** Lines 149 and 157: the annotation is parsed and the result filtered
    against the image; [shape] is [img.shape] of the image read on line 148. *)
Definition detection_targets (lower_strip : String.string -> String.string)
    (keep_difficult : bool) (shape : list nat)
    (objs : list ParseAnnotation.xml_object)
  : option (list VOCDataset.box * list Z) :=
  parsed <- ParseAnnotation.call lower_strip keep_difficult objs ;;
  VOCDataset.filter shape (map row_box (fst parsed)) (map Z.of_nat (snd parsed)).

End GetItem.

(** * [VOCDataset.__init__], the list of ids *)

Module VOCDatasetInit.

(** An entry of [self.ids]: [(basepath, image id)]. *)
Definition image_id : Type := (String.string * String.string)%type.

(** [lambda _: _[0] + _[1]]. *)
Definition id_key (x : image_id) : String.string := String.append (fst x) (snd x).

(** [sorted(l, key=id_key)]: Python's sort is stable and compares the keys,
    strings, by code point. *)
Definition sorted_by_key (l : list image_id) : list image_id :=
  map (fun i => nth i l (String.EmptyString, String.EmptyString))
      (argsort String.leb (map id_key l)).

(** Line 143, [sorted(list(set(self.ids)), key=...)]: [listed] is
    [list(set(self.ids))], the collected ids without duplicates in the order
    in which the set yields them, which Python leaves open. *)
Definition sorted_ids (listed : list image_id) : list image_id := sorted_by_key listed.

(** [listed] can be [list(set(ids))]. *)
Definition lists_set (ids listed : list image_id) : Prop :=
  NoDup listed /\ forall x, In x listed <-> In x ids.

(** The order of the keys. *)
Definition key_leq (x y : image_id) : Prop := String.leb (id_key x) (id_key y) = true.

End VOCDatasetInit.

(** * [str.lower().strip()] on ASCII text *)

Module PyStr.

(** Python's whitespace below code point 128: [\t\n\v\f\r], the separators
    28 to 31 and the space. *)
Definition is_space (a : Ascii.ascii) : bool :=
  let n := Ascii.nat_of_ascii a in
  ((9 <=? n) && (n <=? 13) || (28 <=? n) && (n <=? 32))%nat.

Definition lower_char (a : Ascii.ascii) : Ascii.ascii :=
  let n := Ascii.nat_of_ascii a in
  if ((65 <=? n) && (n <=? 90))%nat then Ascii.ascii_of_nat (n + 32) else a.

Fixpoint lower (s : String.string) : String.string :=
  match s with
  | String.EmptyString => String.EmptyString
  | String.String a s' => String.String (lower_char a) (lower s')
  end.

Fixpoint lstrip (s : String.string) : String.string :=
  match s with
  | String.EmptyString => String.EmptyString
  | String.String a s' => if is_space a then lstrip s' else s
  end.

Fixpoint rstrip (s : String.string) : String.string :=
  match s with
  | String.EmptyString => String.EmptyString
  | String.String a s' =>
      match rstrip s' with
      | String.EmptyString =>
          if is_space a then String.EmptyString else String.String a String.EmptyString
      | r => String.String a r
      end
  end.

Definition lower_strip (s : String.string) : String.string := rstrip (lstrip (lower s)).

End PyStr.

(** ** Example annotations and image ids *)

Module Annotations.
Import ParseAnnotation VOCDatasetInit.
Import String.StringSyntax.
Local Open Scope string_scope.

(** An annotation of three objects: a dog, a difficult person, and an
    object of a class VOC does not have. *)
Definition objects : list xml_object :=
  [mkObject (Some 0%Z) (Some " Dog") (Some 48%Z) (Some 240%Z) (Some 195%Z) (Some 371%Z);
   mkObject (Some 1%Z) (Some "person") (Some 8%Z) (Some 12%Z) (Some 352%Z) (Some 498%Z);
   mkObject (Some 0%Z) (Some "unicorn") (Some 1%Z) (Some 1%Z) (Some 9%Z) (Some 9%Z)].

(** The ids collected from two files that both list image 000012, and two
    orders in which the set of them can be listed. *)
Definition listed_a : list image_id := [("r/VOC2007", "000012"); ("r/VOC2007", "000005")].
Definition listed_b : list image_id := [("r/VOC2007", "000005"); ("r/VOC2007", "000012")].
Definition collected : list image_id :=
  [("r/VOC2007", "000012"); ("r/VOC2007", "000005"); ("r/VOC2007", "000012")].

End Annotations.

(** * Properties *)

(** ** Boolean comparisons *)

Lemma Rltb_true (a b : R) : Rltb a b = true <-> a < b.
Proof. unfold Rltb; destruct (Rlt_dec a b); split; intros; auto; discriminate. Qed.

Lemma Rltb_false (a b : R) : Rltb a b = false <-> b <= a.
Proof.
  unfold Rltb; destruct (Rlt_dec a b); split; intros; auto; try discriminate; lra.
Qed.

Lemma Rleb_true (a b : R) : Rleb a b = true <-> a <= b.
Proof. unfold Rleb; destruct (Rle_dec a b); split; intros; auto; discriminate. Qed.

Lemma Rleb_false (a b : R) : Rleb a b = false <-> b < a.
Proof.
  unfold Rleb; destruct (Rle_dec a b); split; intros; auto; try discriminate; lra.
Qed.


(** ** [VOCDataset.filter] *)

Module VOCDatasetFacts.
Import VOCDataset.

Lemma Rmax_lt_1 (a b : R) : Rmax a b < 1 <-> a < 1 /\ b < 1.
Proof. unfold Rmax; destruct (Rle_dec a b); lra. Qed.

Lemma fold_Rmax_lt_1 (cs : list R) (c : R) :
  fold_left Rmax cs c < 1 <-> c < 1 /\ Forall (fun x => x < 1) cs.
Proof.
  revert c; induction cs as [|d cs IH]; intros c; simpl.
  - split; [intros H; split; [exact H | constructor] | intros [H _]; exact H].
  - rewrite IH, Rmax_lt_1. split.
    + intros [[Hc Hd] Hcs]. split; [exact Hc | constructor; assumption].
    + intros [Hc Hall]. inversion Hall; subst. repeat split; assumption.
Qed.

(** [np.max(boxes) < 1] says that all the coordinates are below 1. *)
Lemma np_max_lt_1 (boxes : list box) (m : R) :
  np_max boxes = Some m -> (m < 1 <-> normalized boxes).
Proof.
  unfold np_max, normalized. rewrite <- Forall_flat_map.
  destruct (flat_map coords boxes) as [|c cs]; [discriminate|].
  intros [= <-]. rewrite fold_Rmax_lt_1. split.
  - intros [Hc Hcs]; constructor; assumption.
  - intros H; inversion H; subst; split; assumption.
Qed.

Lemma np_max_nonempty (b : box) (boxes : list box) :
  exists m, np_max (b :: boxes) = Some m.
Proof. unfold np_max; simpl. eexists; reflexivity. Qed.

Lemma np_max_of_item (boxes : list box) (labels : list Z) (it : box * Z) :
  In it (combine boxes labels) -> exists m, np_max boxes = Some m.
Proof.
  destruct boxes as [|b boxes]; [intros []|]. intros _. apply np_max_nonempty.
Qed.

(** The loop appends, in order, the pairs that [keep] accepts. *)
Lemma filter_loop_keep (h w : nat) (boxes : list box) (m : R)
    (items : list (box * Z)) (boxes_ : list box) (labels_ : list Z) :
  np_max boxes = Some m ->
  filter_loop h w boxes items boxes_ labels_
  = Some (boxes_ ++ map fst (List.filter (keep m h w) items),
          labels_ ++ map snd (List.filter (keep m h w) items)).
Proof.
  intros Hm. revert boxes_ labels_.
  induction items as [|[b l] items IH]; intros boxes_ labels_; simpl.
  - now rewrite !app_nil_r.
  - rewrite Hm.
    assert (Hk : keep m h w (b, l)
                 = negb (Rleb (Rmin (x2 b - x1 b) (y2 b - y1 b)) 0) &&
                   negb (Rltb m 1 &&
                         Rltb (sqrt ((x2 b - x1 b) * INR w * (y2 b - y1 b) * INR h)) 8))
      by reflexivity.
    rewrite Hk. clear Hk.
    destruct (Rleb (Rmin (x2 b - x1 b) (y2 b - y1 b)) 0); simpl; [apply IH|].
    destruct (Rltb m 1 && Rltb (sqrt ((x2 b - x1 b) * INR w * (y2 b - y1 b) * INR h)) 8);
      simpl; [apply IH|].
    rewrite IH, <- !app_assoc. reflexivity.
Qed.

Lemma filter_keep (shape : list nat) (h w : nat) (boxes : list box)
    (labels : list Z) (m : R) :
  image_hw shape = Some (h, w) -> np_max boxes = Some m ->
  filter shape boxes labels = Some (unzip (List.filter (keep m h w) (combine boxes labels))).
Proof.
  intros Hs Hm. unfold filter. rewrite Hs.
  rewrite (filter_loop_keep h w boxes m _ [] [] Hm). reflexivity.
Qed.

Lemma filter_no_box (shape : list nat) (h w : nat) (labels : list Z) :
  image_hw shape = Some (h, w) -> filter shape [] labels = Some ([], []).
Proof. intros Hs. unfold filter. rewrite Hs. reflexivity. Qed.

Lemma image_hw_rank (shape : list nat) :
  (length shape = 2 \/ length shape = 3)%nat -> exists h w, image_hw shape = Some (h, w).
Proof.
  destruct shape as [|s0 [|s1 [|s2 [|s3 rest]]]]; simpl; intros [H|H]; try discriminate.
  - eauto.
  - destruct (s2 <? s0)%nat; eauto.
Qed.

Lemma combine_unzip (l : list (box * Z)) : combine (map fst l) (map snd l) = l.
Proof. induction l as [|[b t] l IH]; simpl; [reflexivity | now rewrite IH]. Qed.

Lemma positive_size_spec (b : box) :
  positive_size b = true <-> 0 < width b /\ 0 < height b.
Proof.
  unfold positive_size. rewrite negb_true_iff, Rleb_false.
  unfold Rmin; destruct (Rle_dec (width b) (height b)); lra.
Qed.

Lemma keep_spec (m : R) (h w : nat) (it : box * Z) :
  keep m h w it = true <->
  (0 < width (fst it) /\ 0 < height (fst it)) /\
  ~ (m < 1 /\ pixel_geomean h w (fst it) < 8).
Proof.
  unfold keep, small.
  rewrite andb_true_iff, positive_size_spec, negb_true_iff, andb_false_iff.
  rewrite !Rltb_false. split; intros [Hp Hs]; (split; [exact Hp | lra]).
Qed.

(** C6: for an image (an array of rank 2 or 3) and any boxes and labels,
    [filter] raises nothing; every box it returns comes from the input and
    has strictly positive width and height, so every box with a non-positive
    width or height is gone; boxes and labels stay paired; and without input
    boxes both outputs are empty. *)
Theorem filter_drops_degenerate (shape : list nat) (boxes : list box) (labels : list Z) :
  (length shape = 2 \/ length shape = 3)%nat ->
  exists bs ls,
    filter shape boxes labels = Some (bs, ls) /\
    Forall (fun b => 0 < width b /\ 0 < height b) bs /\
    (forall b l, In (b, l) (combine bs ls) -> In (b, l) (combine boxes labels)) /\
    length bs = length ls /\
    (boxes = [] -> bs = [] /\ ls = []).
Proof.
  intros Hrank. destruct (image_hw_rank shape Hrank) as (h & w & Hs).
  destruct boxes as [|b0 boxes].
  - exists [], []. rewrite (filter_no_box shape h w labels Hs).
    repeat split; auto.
  - destruct (np_max_nonempty b0 boxes) as [m Hm].
    rewrite (filter_keep shape h w _ labels m Hs Hm). unfold unzip.
    eexists _, _. split; [reflexivity|]. repeat split.
    + apply Forall_forall. intros b Hb. apply in_map_iff in Hb.
      destruct Hb as (it & <- & Hit). apply filter_In in Hit.
      destruct Hit as [_ Hk]. apply keep_spec in Hk. tauto.
    + intros b l. rewrite combine_unzip. intros H. apply filter_In in H. tauto.
    + now rewrite !length_map.
    + discriminate.
    + discriminate.
Qed.

Lemma filter_drops_degenerate_witness :
  exists bs ls,
    filter [375; 500; 3]%nat [mkBox 10 10 10 50; mkBox 20 30 120 90] [7; 12]%Z
    = Some (bs, ls) /\
    Forall (fun b => 0 < width b /\ 0 < height b) bs /\
    (forall b l, In (b, l) (combine bs ls) ->
       In (b, l) (combine [mkBox 10 10 10 50; mkBox 20 30 120 90] [7; 12]%Z)) /\
    length bs = length ls /\
    ([mkBox 10 10 10 50; mkBox 20 30 120 90] = [] -> bs = [] /\ ls = []).
Proof.
  apply (filter_drops_degenerate [375; 500; 3]%nat). right; reflexivity.
Defined.

(** C7: past the width and height test, a box is dropped exactly when the
    coordinates are in normalized units (all below 1, which is what
    [np.max(boxes) < 1] says) and the geometric mean of its pixel
    dimensions, [sqrt((x2-x1) * w * (y2-y1) * h)], is below 8. *)
Theorem small_box_test (shape : list nat) (h w : nat) (boxes : list box)
    (labels : list Z) (bs : list box) (ls : list Z) (b : box) (l : Z) :
  image_hw shape = Some (h, w) ->
  filter shape boxes labels = Some (bs, ls) ->
  In (b, l) (combine boxes labels) ->
  0 < x2 b - x1 b -> 0 < y2 b - y1 b ->
  (~ In (b, l) (combine bs ls) <->
   normalized boxes /\
   sqrt ((x2 b - x1 b) * INR w * (y2 b - y1 b) * INR h) < 8).
Proof.
  intros Hs Hf Hin Hw Hh.
  destruct (np_max_of_item boxes labels _ Hin) as [m Hm].
  rewrite (filter_keep shape h w boxes labels m Hs Hm) in Hf.
  injection Hf as <- <-. rewrite combine_unzip, filter_In.
  rewrite <- (np_max_lt_1 boxes m Hm).
  pose proof (keep_spec m h w (b, l)) as Hk. simpl in Hk.
  unfold pixel_geomean, width, height in Hk. rewrite Hk. tauto.
Qed.

Lemma sqrt_lt_8 (x : R) : 0 <= x -> x < 64 -> sqrt x < 8.
Proof.
  intros H0 H. replace 8 with (sqrt (8 * 8)) by (apply sqrt_square; lra).
  apply sqrt_lt_1_alt. lra.
Qed.

(** A box of a tenth of a pixel in a 10 by 10 image, in normalized units. *)
Lemma small_box_test_witness :
  ~ In (mkBox 0 0 (1 / 100) (1 / 100), 3%Z) (combine [] []) <->
  normalized [mkBox 0 0 (1 / 100) (1 / 100)] /\
  sqrt ((1 / 100 - 0) * INR 10 * (1 / 100 - 0) * INR 10) < 8.
Proof.
  assert (Hg : sqrt ((1 / 100 - 0) * INR 10 * (1 / 100 - 0) * INR 10) < 8).
  { apply sqrt_lt_8; simpl; lra. }
  assert (Hm : np_max [mkBox 0 0 (1 / 100) (1 / 100)]
               = Some (Rmax (Rmax (Rmax 0 0) (1 / 100)) (1 / 100))) by reflexivity.
  assert (Hlt : Rmax (Rmax (Rmax 0 0) (1 / 100)) (1 / 100) < 1).
  { rewrite !Rmax_lt_1. lra. }
  apply (small_box_test [10; 10]%nat 10 10 [mkBox 0 0 (1 / 100) (1 / 100)] [3%Z]
           [] [] (mkBox 0 0 (1 / 100) (1 / 100)) 3%Z).
  - reflexivity.
  - rewrite (filter_keep [10; 10]%nat 10 10 _ _ _ eq_refl Hm).
    assert (Hk : keep (Rmax (Rmax (Rmax 0 0) (1 / 100)) (1 / 100)) 10 10
                   (mkBox 0 0 (1 / 100) (1 / 100), 3%Z) = false).
    { apply not_true_iff_false. rewrite keep_spec. simpl.
      unfold pixel_geomean, width, height. simpl x1; simpl x2; simpl y1; simpl y2.
      tauto. }
    cbv [combine List.filter]. rewrite Hk. reflexivity.
  - left; reflexivity.
  - simpl; lra.
  - simpl; lra.
Defined.

Lemma not_normalized (boxes : list box) :
  Exists (fun b => Exists (fun c => 1 <= c) (coords b)) boxes -> ~ normalized boxes.
Proof.
  intros He Hn. apply Exists_exists in He. destruct He as (b & Hb & Hc).
  apply Exists_exists in Hc. destruct Hc as (c & Hc & Hge).
  unfold normalized in Hn. rewrite Forall_forall in Hn.
  specialize (Hn b Hb). rewrite Forall_forall in Hn. specialize (Hn c Hc). lra.
Qed.

(** C10: the size test reads [np.max] of the whole array.  When some
    coordinate of some box of the image is at least 1, only the width and
    height test decides, for every box; when all coordinates of all boxes
    are below 1, the size test is applied to every box as well. *)
Theorem size_test_per_image (shape : list nat) (h w : nat) (boxes : list box)
    (labels : list Z) :
  image_hw shape = Some (h, w) ->
  (Exists (fun b => Exists (fun c => 1 <= c) (coords b)) boxes ->
   filter shape boxes labels
   = Some (unzip (List.filter (fun it => positive_size (fst it))
                              (combine boxes labels)))) /\
  (normalized boxes ->
   filter shape boxes labels
   = Some (unzip (List.filter
                    (fun it => positive_size (fst it) && negb (small h w (fst it)))
                    (combine boxes labels)))).
Proof.
  intros Hs. destruct boxes as [|b0 boxes].
  - split; intros H.
    + inversion H.
    + apply (filter_no_box shape h w labels Hs).
  - destruct (np_max_nonempty b0 boxes) as [m Hm].
    rewrite (filter_keep shape h w _ labels m Hs Hm).
    pose proof (np_max_lt_1 _ m Hm) as Hn.
    split; intros H; do 2 f_equal; apply filter_ext; intros it; unfold keep.
    + apply not_normalized in H.
      assert (Hge : ~ m < 1) by tauto.
      assert (Hf : Rltb m 1 = false) by (apply Rltb_false; lra).
      rewrite Hf. simpl. apply andb_true_r.
    + assert (Ht : Rltb m 1 = true) by (apply Rltb_true; tauto).
      rewrite Ht. reflexivity.
Qed.

Lemma size_test_per_image_witness :
  (Exists (fun b => Exists (fun c => 1 <= c) (coords b))
          [mkBox 0 0 (1 / 100) (1 / 100); mkBox 4 4 9 9] ->
   filter [10; 10; 3]%nat [mkBox 0 0 (1 / 100) (1 / 100); mkBox 4 4 9 9] [3; 5]%Z
   = Some (unzip (List.filter (fun it => positive_size (fst it))
                    (combine [mkBox 0 0 (1 / 100) (1 / 100); mkBox 4 4 9 9] [3; 5]%Z)))) /\
  (normalized [mkBox 0 0 (1 / 100) (1 / 100); mkBox 4 4 9 9] ->
   filter [10; 10; 3]%nat [mkBox 0 0 (1 / 100) (1 / 100); mkBox 4 4 9 9] [3; 5]%Z
   = Some (unzip (List.filter
                    (fun it => positive_size (fst it) && negb (small 10 10 (fst it)))
                    (combine [mkBox 0 0 (1 / 100) (1 / 100); mkBox 4 4 9 9] [3; 5]%Z)))).
Proof.
  apply (size_test_per_image [10; 10; 3]%nat 10 10). reflexivity.
Defined.

End VOCDatasetFacts.

(** ** The sorts *)

Section ArgsortFacts.
Context {K : Type} (leb : K -> K -> bool).

Lemma insert_perm (x : K * nat) (l : list (K * nat)) :
  Permutation (insert leb x l) (x :: l).
Proof.
  induction l as [|y l IH]; simpl; [reflexivity|].
  destruct (leb (fst x) (fst y)); [reflexivity|].
  transitivity (y :: x :: l); [apply perm_skip, IH | apply perm_swap].
Qed.

Lemma sort_pairs_perm (l : list (K * nat)) : Permutation (sort_pairs leb l) l.
Proof.
  induction l as [|x l IH]; simpl; [reflexivity|].
  transitivity (x :: sort_pairs leb l); [apply insert_perm | apply perm_skip, IH].
Qed.

Lemma map_snd_combine_seq (l : list K) (s : nat) :
  map snd (combine l (seq s (length l))) = seq s (length l).
Proof.
  revert s; induction l as [|a l IH]; intros s; simpl; [reflexivity|].
  now rewrite IH.
Qed.

Lemma map_fst_combine_seq (l : list K) (s : nat) :
  map fst (combine l (seq s (length l))) = l.
Proof.
  revert s; induction l as [|a l IH]; intros s; simpl; [reflexivity|].
  now rewrite IH.
Qed.

Lemma argsort_perm (l : list K) : Permutation (argsort leb l) (seq 0 (length l)).
Proof.
  unfold argsort. rewrite <- (map_snd_combine_seq l 0) at 2.
  apply Permutation_map, sort_pairs_perm.
Qed.

Lemma length_argsort (l : list K) : length (argsort leb l) = length l.
Proof. rewrite (Permutation_length (argsort_perm l)). apply length_seq. Qed.

Lemma in_combine_seq (l : list K) (s i : nat) (v d : K) :
  In (v, i) (combine l (seq s (length l))) ->
  (s <= i < s + length l)%nat /\ nth (i - s) l d = v.
Proof.
  revert s; induction l as [|a l IH]; intros s; simpl; [intros []|].
  intros [H|H].
  - injection H as -> ->. split; [lia|]. now rewrite Nat.sub_diag.
  - apply IH in H. destruct H as [Hr Hn]. split; [lia|].
    replace (i - s)%nat with (Datatypes.S (i - Datatypes.S s)) by lia. exact Hn.
Qed.

(** An entry of the sorted pairs carries the key of its own position. *)
Lemma sort_pairs_entry (l : list K) (i : nat) (d : K) :
  (i < length l)%nat ->
  let e := nth i (sort_pairs leb (combine l (seq 0 (length l)))) (d, 0%nat) in
  (snd e < length l)%nat /\ nth (snd e) l d = fst e /\
  nth i (argsort leb l) 0%nat = snd e.
Proof.
  intros Hi e.
  assert (Hlen : length (sort_pairs leb (combine l (seq 0 (length l)))) = length l).
  { rewrite (Permutation_length (sort_pairs_perm _)), length_combine, length_seq. lia. }
  assert (Hin : In e (combine l (seq 0 (length l)))).
  { apply (Permutation_in _ (sort_pairs_perm _)). apply nth_In. lia. }
  destruct e as [v a] eqn:He. apply (in_combine_seq l 0 a v d) in Hin.
  destruct Hin as [Hr Hn]. rewrite Nat.sub_0_r in Hn. simpl. repeat split; [lia | exact Hn |].
  unfold argsort.
  rewrite (map_nth snd (sort_pairs leb (combine l (seq 0 (length l)))) (d, 0%nat) i
           : nth i (map snd _) 0%nat = _).
  subst e. now rewrite He.
Qed.

Variable le : K -> K -> Prop.
Hypothesis leb_le : forall a b, leb a b = true -> le a b.
Hypothesis leb_total : forall a b, leb a b = false -> le b a.
Hypothesis le_trans : forall a b c, le a b -> le b c -> le a c.

Lemma insert_sorted (x : K * nat) (l : list (K * nat)) :
  StronglySorted (key_le le) l -> StronglySorted (key_le le) (insert leb x l).
Proof.
  induction 1 as [|y l Hs IH Hall]; simpl.
  - constructor; constructor.
  - destruct (leb (fst x) (fst y)) eqn:E.
    + constructor; [constructor; assumption|].
      constructor; [apply leb_le, E|].
      apply Forall_forall. intros z Hz. rewrite Forall_forall in Hall.
      apply (le_trans _ (fst y)); [apply leb_le, E | apply Hall, Hz].
    + constructor; [exact IH|].
      apply Forall_forall. intros z Hz.
      apply (Permutation_in _ (insert_perm x l)) in Hz. destruct Hz as [<-|Hz].
      * apply leb_total, E.
      * rewrite Forall_forall in Hall. apply Hall, Hz.
Qed.

Lemma sort_pairs_sorted (l : list (K * nat)) : StronglySorted (key_le le) (sort_pairs leb l).
Proof.
  induction l as [|x l IH]; simpl; [constructor | apply insert_sorted, IH].
Qed.

End ArgsortFacts.

Lemma StronglySorted_nth {T : Type} (R : T -> T -> Prop) (l : list T) (d : T) :
  StronglySorted R l ->
  forall i j, (i < j < length l)%nat -> R (nth i l d) (nth j l d).
Proof.
  induction 1 as [|a l Hs IH Hall]; intros i j Hij; simpl in *; [lia|].
  destruct j as [|j]; [lia|]. destruct i as [|i].
  - rewrite Forall_forall in Hall. apply Hall, nth_In. lia.
  - apply IH. lia.
Qed.

Lemma StronglySorted_map_fst {T : Type} (le : T -> T -> Prop) (l : list (T * nat)) :
  StronglySorted (key_le le) l -> StronglySorted le (map fst l).
Proof.
  induction 1 as [|a l Hs IH Hall]; simpl; constructor; [exact IH|].
  apply Forall_forall. intros z Hz. apply in_map_iff in Hz.
  destruct Hz as (e & <- & He). rewrite Forall_forall in Hall. apply (Hall e He).
Qed.

Lemma seq_sorted (s n : nat) : StronglySorted Nat.le (seq s n).
Proof.
  revert s; induction n as [|n IH]; intros s; simpl; constructor; [apply IH|].
  apply Forall_forall. intros z Hz. apply in_seq in Hz. unfold Nat.le; lia.
Qed.

(** Two ascending lists of numbers with the same entries are the same list. *)
Lemma sorted_perm_eq (l1 l2 : list nat) :
  StronglySorted Nat.le l1 -> StronglySorted Nat.le l2 -> Permutation l1 l2 -> l1 = l2.
Proof.
  intros H1; revert l2. induction H1 as [|a l1 Hs IH Ha]; intros l2 H2 Hp.
  - symmetry. apply Permutation_nil, Hp.
  - destruct H2 as [|b l2 Hs2 Hb].
    + apply Permutation_sym, Permutation_nil in Hp. discriminate.
    + assert (a = b) as <-.
      { rewrite Forall_forall in Ha, Hb. unfold Nat.le in *.
        assert (In a (b :: l2)) as [E|Ia]
          by (apply (Permutation_in _ Hp); left; reflexivity); [now symmetry|].
        assert (In b (a :: l1)) as [E|Ib]
          by (apply (Permutation_in _ (Permutation_sym Hp)); left; reflexivity);
          [exact E|].
        specialize (Ha b Ib). specialize (Hb a Ia). lia. }
      f_equal. apply IH; [exact Hs2|]. apply (Permutation_cons_inv Hp).
Qed.

(** Sorting a permutation of the positions inverts it. *)
Lemma argsort_inverse (p : list nat) (i : nat) :
  Permutation p (seq 0 (length p)) -> (i < length p)%nat ->
  (nth i (argsort Nat.leb p) 0 < length p)%nat /\
  nth (nth i (argsort Nat.leb p) 0%nat) p 0%nat = i.
Proof.
  intros Hp Hi.
  pose proof (sort_pairs_entry Nat.leb p i 0%nat Hi) as He. cbv zeta in He.
  destruct He as (Hlt & Hn & Ha). rewrite Ha. split; [exact Hlt|]. rewrite Hn.
  set (q := sort_pairs Nat.leb (combine p (seq 0 (length p)))).
  assert (Hq : map fst q = seq 0 (length p)).
  { apply sorted_perm_eq.
    - apply StronglySorted_map_fst.
      apply (sort_pairs_sorted Nat.leb Nat.le).
      + intros a b H. apply Nat.leb_le, H.
      + intros a b H. apply Nat.leb_gt in H. unfold Nat.le; lia.
      + intros a b c. unfold Nat.le; lia.
    - apply seq_sorted.
    - transitivity p; [|exact Hp].
      pose proof (Permutation_map fst
                    (sort_pairs_perm Nat.leb (combine p (seq 0 (length p))))) as Hm.
      rewrite map_fst_combine_seq in Hm. exact Hm. }
  rewrite <- (map_nth fst q (0%nat, 0%nat) i : nth i (map fst q) 0%nat = _).
  rewrite Hq. rewrite seq_nth by exact Hi. reflexivity.
Qed.

(** The stable sort meets the contract of [sorter]. *)
Lemma stable_asc (l : list R) (i j : nat) :
  (i <= j < length l)%nat ->
  nth (nth i (argsort Rleb l) 0%nat) l 0 <= nth (nth j (argsort Rleb l) 0%nat) l 0.
Proof.
  intros Hij.
  destruct (sort_pairs_entry Rleb l i 0) as (_ & Hni & Hai); [lia|].
  destruct (sort_pairs_entry Rleb l j 0) as (_ & Hnj & Haj); [lia|].
  rewrite Hai, Haj, Hni, Hnj.
  destruct (Nat.eq_dec i j) as [->|Hne]; [lra|].
  apply (StronglySorted_nth (key_le Rle)).
  - apply (sort_pairs_sorted Rleb Rle).
    + intros a b H. apply Rleb_true, H.
    + intros a b H. apply Rleb_false in H. lra.
    + intros a b c. lra.
  - rewrite (Permutation_length (sort_pairs_perm _ _)), length_combine, length_seq. lia.
Qed.

Definition stable : sorter := mkSorter (argsort Rleb) (argsort_perm Rleb) stable_asc.

(** ** Sums and counts *)

Lemma map2_map_map {A B C D : Type} (f : B -> C -> D) (g : A -> B) (h : A -> C)
    (l : list A) :
  map2 f (map g l) (map h l) = map (fun x => f (g x) (h x)) l.
Proof. induction l as [|a l IH]; simpl; [reflexivity | now rewrite IH]. Qed.

Lemma length_map2 {A B C : Type} (f : A -> B -> C) (l : list A) (m : list B) :
  length (map2 f l m) = Nat.min (length l) (length m).
Proof.
  revert m; induction l as [|a l IH]; intros [|b m]; simpl; try reflexivity.
  now rewrite IH.
Qed.

Lemma nth_map2 {A B C : Type} (f : A -> B -> C) (l : list A) (m : list B)
    (i : nat) (da : A) (db : B) (dc : C) :
  (i < length l)%nat -> (i < length m)%nat ->
  nth i (map2 f l m) dc = f (nth i l da) (nth i m db).
Proof.
  revert m i; induction l as [|a l IH]; intros [|b m] i Hl Hm; simpl in *; try lia.
  destruct i as [|i]; [reflexivity|]. apply IH; lia.
Qed.

Lemma nth_map_lt {A B : Type} (f : A -> B) (l : list A) (i : nat) (da : A) (db : B) :
  (i < length l)%nat -> nth i (map f l) db = f (nth i l da).
Proof.
  intros Hi. rewrite (nth_indep _ db (f da)) by now rewrite length_map.
  apply map_nth.
Qed.

Lemma Zsum_perm (l l' : list Z) : Permutation l l' -> Zsum l = Zsum l'.
Proof. induction 1; simpl; lia. Qed.

Lemma Zsum_app (l l' : list Z) : Zsum (l ++ l') = (Zsum l + Zsum l')%Z.
Proof. induction l as [|a l IH]; simpl; lia. Qed.

Lemma Rsum_app (l l' : list R) : Rsum (l ++ l') = Rsum l + Rsum l'.
Proof. induction l as [|a l IH]; simpl; lra. Qed.

Module MultiBoxLossFacts.
Import MultiBoxLoss.

Lemma count_true_range (row : list bool) : (0 <= count_true row <= Z.of_nat (length row))%Z.
Proof.
  induction row as [|b row IH]; [unfold count_true; simpl; lia|].
  change (count_true (b :: row)) with (b2z b + count_true row)%Z.
  simpl length. destruct b; simpl b2z; lia.
Qed.

(** How many of the positions [s, s+1, ..., s+n-1] lie below a limit. *)
Lemma count_below_seq (lim : Z) (s n : nat) :
  count_true (map (fun i => (Z.of_nat i <? lim)%Z) (seq s n))
  = Z.max 0 (Z.min (lim - Z.of_nat s) (Z.of_nat n)).
Proof.
  unfold count_true. revert s; induction n as [|n IH]; intros s.
  - simpl. lia.
  - cbn [seq map Zsum fold_right]. fold (Zsum (map b2z (map (fun i => (Z.of_nat i <? lim)%Z) (seq (Datatypes.S s) n)))).
    rewrite IH. destruct (Z.ltb_spec (Z.of_nat s) lim); simpl b2z; lia.
Qed.

Lemma count_below_perm (lim : Z) (r : list nat) (n : nat) :
  Permutation r (seq 0 n) ->
  count_true (map (fun i => (Z.of_nat i <? lim)%Z) r) = Z.max 0 (Z.min lim (Z.of_nat n)).
Proof.
  intros Hp. pose proof (count_below_seq lim 0 n) as Hs.
  change (Z.of_nat 0) with 0%Z in Hs. rewrite Z.sub_0_r in Hs.
  rewrite <- Hs. unfold count_true.
  apply Zsum_perm. do 2 apply Permutation_map. exact Hp.
Qed.

(** ** Ranks *)

Lemma length_sort_indices (S : sorter) (keys : list R) :
  length (sort_indices S keys) = length keys.
Proof. rewrite (Permutation_length (sort_indices_perm S keys)). apply length_seq. Qed.

(** The double sort yields a permutation of the positions, whatever the keys. *)
Lemma rank_perm (S : sorter) (keys : list R) :
  Permutation (rank_of S keys) (seq 0 (length keys)).
Proof.
  unfold rank_of. rewrite <- (length_sort_indices S keys). apply argsort_perm.
Qed.

Lemma length_rank (S : sorter) (keys : list R) : length (rank_of S keys) = length keys.
Proof. rewrite (Permutation_length (rank_perm S keys)). apply length_seq. Qed.

(** The rank of a position is its place in the sorted order: a smaller key
    has a smaller rank. *)
Lemma rank_lt (S : sorter) (keys : list R) (i j : nat) :
  (i < length keys)%nat -> (j < length keys)%nat ->
  nth i keys 0 < nth j keys 0 ->
  (nth i (rank_of S keys) 0 < nth j (rank_of S keys) 0)%nat.
Proof.
  intros Hi Hj Hlt. unfold rank_of.
  pose proof (sort_indices_perm S keys) as Hp.
  rewrite <- (length_sort_indices S keys) in Hp, Hi, Hj.
  destruct (argsort_inverse _ i Hp Hi) as [Hri Hii].
  destruct (argsort_inverse _ j Hp Hj) as [Hrj Hjj].
  set (ri := nth i (argsort Nat.leb (sort_indices S keys)) 0%nat) in *.
  set (rj := nth j (argsort Nat.leb (sort_indices S keys)) 0%nat) in *.
  destruct (Nat.lt_ge_cases ri rj) as [H|H]; [exact H|exfalso].
  pose proof (sort_indices_asc S keys rj ri) as Hasc.
  rewrite Hii, Hjj in Hasc. rewrite length_sort_indices in Hri.
  specialize (Hasc (conj H Hri)). lra.
Qed.

(** ** [_hard_negative_mining], row by row *)

Lemma hnm_row (S : sorter) (loss : loss_tensor) (pos neg : tensor2 bool) (k : Z) (b : nat) :
  let keys := bmul loss (map (map (fun n => -1 * b2r n)) neg) in
  (b < length keys)%nat -> (b < length pos)%nat ->
  nth b (_hard_negative_mining S loss pos neg k) []
  = map (fun i => (Z.of_nat i <? count_true (nth b pos []) * k)%Z)
        (rank_of S (nth b keys [])).
Proof.
  intros keys Hk Hp. unfold _hard_negative_mining. fold keys.
  rewrite (nth_map2 _ _ _ b [] 0%Z []) by (rewrite length_map; assumption).
  rewrite (nth_map_lt _ _ b [] []) by assumption.
  rewrite (nth_map_lt _ _ b [] 0%Z) by assumption.
  reflexivity.
Qed.

Lemma shape2_row {T : Type} (B A : nat) (t : tensor2 T) (b : nat) :
  shape2 B A t -> (b < B)%nat -> length (nth b t []) = A.
Proof.
  intros [Hl Hr] Hb. rewrite Forall_forall in Hr. apply Hr, nth_In. lia.
Qed.

Lemma keys_row (loss : loss_tensor) (B A : nat) (t : tensor2 R) (b : nat) :
  shape2 B A t -> loss_shape loss B A -> (b < B)%nat ->
  (b < length (bmul loss t))%nat /\ length (nth b (bmul loss t) []) = A.
Proof.
  intros Ht Hloss Hb. pose proof (shape2_row B A t b Ht Hb) as Hrow.
  destruct Ht as [Hl Hr]. destruct loss as [c|m]; simpl in *.
  - rewrite length_map. split; [lia|].
    rewrite (nth_map_lt _ _ b [] []) by lia. now rewrite length_map.
  - pose proof (shape2_row B A m b Hloss Hb) as Hrow'. destruct Hloss as [Hl' Hr'].
    rewrite length_map2. split; [lia|].
    rewrite (nth_map2 _ _ _ b [] [] []) by lia.
    rewrite length_map2. lia.
Qed.

Lemma shape2_map {T U : Type} (f : T -> U) (B A : nat) (t : tensor2 T) :
  shape2 B A t -> shape2 B A (map (map f) t).
Proof.
  intros [Hl Hr]. split; [now rewrite length_map|].
  apply Forall_forall. intros row Hin. apply in_map_iff in Hin.
  destruct Hin as (r & <- & Hr'). rewrite length_map.
  rewrite Forall_forall in Hr. apply Hr, Hr'.
Qed.

(** A mask that marks more anchors than another one marks one outside it. *)
Lemma count_true_excess (m n : list bool) :
  length m = length n -> (count_true n < count_true m)%Z ->
  exists a, (a < length m)%nat /\ nth a m false = true /\ nth a n false = false.
Proof.
  revert n; induction m as [|x m IH]; intros [|y n] Hlen Hc; simpl in Hlen; try lia.
  change (count_true (y :: n)) with (b2z y + count_true n)%Z in Hc.
  change (count_true (x :: m)) with (b2z x + count_true m)%Z in Hc.
  destruct x, y; simpl b2z in Hc.
  - destruct (IH n) as (a & Ha & Hm & Hn); [lia | lia |].
    exists (Datatypes.S a). simpl. repeat split; [lia | assumption | assumption].
  - exists 0%nat. simpl. repeat split; lia.
  - destruct (IH n) as (a & Ha & Hm & Hn); [lia | lia |].
    exists (Datatypes.S a). simpl. repeat split; [lia | assumption | assumption].
  - destruct (IH n) as (a & Ha & Hm & Hn); [lia | lia |].
    exists (Datatypes.S a). simpl. repeat split; [lia | assumption | assumption].
Qed.

(** Positive and negative anchors of a sample are distinct anchors. *)
Lemma pos_neg_count (labels : list Z) :
  (count_true (map (fun v => (0 <? v)%Z) labels)
   + count_true (map (fun v => (v =? 0)%Z) labels) <= Z.of_nat (length labels))%Z.
Proof.
  induction labels as [|l labels IH]; [unfold count_true; simpl; lia|].
  cbn [map length].
  change (count_true (?x :: ?r)) with (b2z x + count_true r)%Z.
  change (count_true ((0 <? l)%Z :: map (fun v => (0 <? v)%Z) labels))
    with (b2z (0 <? l)%Z + count_true (map (fun v => (0 <? v)%Z) labels))%Z.
  change (count_true ((l =? 0)%Z :: map (fun v => (v =? 0)%Z) labels))
    with (b2z (l =? 0)%Z + count_true (map (fun v => (v =? 0)%Z) labels))%Z.
  destruct (Z.ltb_spec 0 l), (Z.eqb_spec l 0); simpl b2z; lia.
Qed.

(** C9: for a loss that is a scalar or has one value per anchor, a label
    tensor of shape [B, A], [k >= 0] and every sample [b], the mask of
    [_hard_negative_mining] marks exactly [min (k * positives of b, A)]
    anchors, however many negatives the sample has; and when the sample has
    fewer negatives than [k * positives], the mask marks an anchor that is
    not a negative. *)
Theorem hard_negative_count (S : sorter) (loss : loss_tensor) (label : tensor2 Z)
    (k : Z) (B A b : nat) :
  (0 <= k)%Z -> shape2 B A label -> loss_shape loss B A -> (b < B)%nat ->
  let pos := gt0 label in
  let neg := eq0 label in
  let mask := nth b (_hard_negative_mining S loss pos neg k) [] in
  length mask = A /\
  count_true mask = Z.min (k * count_true (nth b pos [])) (Z.of_nat A) /\
  ((count_true (nth b neg []) < k * count_true (nth b pos []))%Z ->
   exists a, (a < A)%nat /\ nth a mask false = true /\ nth a (nth b neg []) false = false).
Proof.
  intros Hk Hshape Hloss Hb pos neg mask.
  assert (Hneg : shape2 B A (map (map (fun n => -1 * b2r n)) neg))
    by (apply shape2_map, shape2_map, Hshape).
  destruct (keys_row loss B A _ b Hneg Hloss Hb) as [Hkb Hka].
  assert (HB : length label = B) by apply Hshape.
  assert (Hpb : (b < length pos)%nat) by (unfold pos, gt0; rewrite length_map; lia).
  assert (Hmask : mask = map (fun i => (Z.of_nat i <? count_true (nth b pos []) * k)%Z)
                    (rank_of S (nth b (bmul loss (map (map (fun n => -1 * b2r n)) neg)) [])))
    by (apply hnm_row; assumption).
  set (keys := nth b (bmul loss (map (map (fun n => -1 * b2r n)) neg)) []) in *.
  assert (Hlen : length mask = A).
  { rewrite Hmask, length_map, length_rank. exact Hka. }
  assert (Hcount : count_true mask = Z.min (k * count_true (nth b pos [])) (Z.of_nat A)).
  { rewrite Hmask, (count_below_perm _ _ _ (rank_perm S keys)), Hka.
    pose proof (count_true_range (nth b pos [])). nia. }
  split; [exact Hlen|]. split; [exact Hcount|].
  intros Hfew.
  assert (Hrow : nth b pos [] = map (fun v => (0 <? v)%Z) (nth b label []))
    by (unfold pos, gt0; apply nth_map_lt; lia).
  assert (Hrown : nth b neg [] = map (fun v => (v =? 0)%Z) (nth b label []))
    by (unfold neg, eq0; apply nth_map_lt; lia).
  pose proof (pos_neg_count (nth b label [])) as Hpn.
  rewrite <- Hrow, <- Hrown, (shape2_row B A label b Hshape Hb) in Hpn.
  pose proof (count_true_range (nth b neg [])) as Hn0.
  destruct (count_true_excess mask (nth b neg [])) as (a & Ha & Hm & Hn).
  - rewrite Hlen, Hrown, length_map. symmetry. apply (shape2_row B A label b Hshape Hb).
  - rewrite Hcount. nia.
  - exists a. rewrite Hlen in Ha. auto.
Qed.

Lemma hard_negative_count_witness :
  let pos := gt0 [[1; 0; -1]%Z] in
  let neg := eq0 [[1; 0; -1]%Z] in
  let mask := nth 0 (_hard_negative_mining stable (Scalar 1) pos neg 3) [] in
  length mask = 3%nat /\
  count_true mask = Z.min (3 * count_true (nth 0 pos [])) (Z.of_nat 3) /\
  ((count_true (nth 0 neg []) < 3 * count_true (nth 0 pos []))%Z ->
   exists a, (a < 3)%nat /\ nth a mask false = true /\ nth a (nth 0 neg []) false = false).
Proof.
  apply (hard_negative_count stable (Scalar 1) [[1; 0; -1]%Z] 3 1 3 0).
  - lia.
  - split; [reflexivity | repeat constructor].
  - exact I.
  - lia.
Defined.

(** ** The masks of [forward], row by row *)

Lemma hnm_rows (S : sorter) (c : R) (label : tensor2 Z) (k : Z) :
  _hard_negative_mining S (Scalar c) (gt0 label) (eq0 label) k
  = map (hard_neg_row S c k) label.
Proof.
  unfold _hard_negative_mining, bmul, gt0, eq0. rewrite !map_map.
  rewrite map2_map_map. reflexivity.
Qed.

Lemma selected_rows (S : sorter) (c : R) (label : tensor2 Z) (k : Z) :
  selected S c label k = map (selected_row S c k) label.
Proof.
  unfold selected. rewrite hnm_rows. unfold mask_add, gt0 at 2.
  rewrite map2_map_map. unfold gt0. rewrite map_map. reflexivity.
Qed.

Lemma conf_terms_rows (S : sorter) (c : R) (label : tensor2 Z) (k : Z) :
  conf_terms S c label k
  = map (fun labels => map (fun v => c * v) (map b2r (selected_row S c k labels))) label.
Proof.
  unfold conf_terms, bmul, to_float. rewrite selected_rows, !map_map. reflexivity.
Qed.

Lemma length_hard_neg_row (S : sorter) (c : R) (k : Z) (labels : list Z) :
  length (hard_neg_row S c k labels) = length labels.
Proof.
  unfold hard_neg_row, neg_keys. now rewrite length_map, length_rank, !length_map.
Qed.

(** The hard-negative mask of a sample marks [min (k * positives, A)] anchors. *)
Lemma count_hard_neg_row (S : sorter) (c : R) (k : Z) (labels : list Z) :
  count_true (hard_neg_row S c k labels)
  = Z.max 0 (Z.min (count_true (map (fun v => (0 <? v)%Z) labels) * k)
                   (Z.of_nat (length labels))).
Proof.
  unfold hard_neg_row.
  rewrite (count_below_perm _ _ _ (rank_perm S (neg_keys c labels))).
  unfold neg_keys. now rewrite !length_map.
Qed.

(** A negative anchor with a non-zero term is one the hard-negative mask
    marks. *)
Lemma nonzero_negatives_le (c : R) (labels : list Z) (hard : list bool) :
  Z.le (nonzero_negatives labels
          (map (fun v => c * v)
             (map b2r (map (fun v => (0 <? v)%Z)
                         (map2 (fun a b => (b2z a + b2z b)%Z)
                               (map (fun v => (0 <? v)%Z) labels) hard)))))
       (count_true hard).
Proof.
  unfold nonzero_negatives, count_true.
  revert hard; induction labels as [|l labels IH]; intros [|h hard];
    try (simpl; lia).
  - pose proof (count_true_range (h :: hard)) as H. unfold count_true in H.
    simpl in *. lia.
  - cbn [map map2 Zsum fold_right].
    specialize (IH hard). unfold Zsum in IH.
    assert (He : Z.le (b2z ((l =? 0)%Z &&
                            negb (Reqb (c * b2r (0 <? b2z (0 <? l)%Z + b2z h)%Z) 0)))
                      (b2z h)).
    { destruct (Z.eqb_spec l 0) as [->|Hl]; [|destruct h; simpl; lia].
      destruct h; simpl; [destruct (negb _); simpl; lia|].
      unfold Reqb. destruct (Req_dec_T (c * 0) 0) as [_|Hne]; [simpl; lia|].
      exfalso. apply Hne. ring. }
    lia.
Qed.

(** The mask alone keeps the bound: whatever value the cross-entropy of
    line 27 has, for [k >= 0] and in every sample [b] of the batch, the
    number of negative anchors (label 0) with a non-zero entry in the tensor
    that line 30 sums is at most [k] times the number of positive anchors of
    that sample. *)
Lemma marked_negatives_bound (S : sorter) (conf_loss : R) (label : tensor2 Z)
    (k : Z) (b : nat) :
  (0 <= k)%Z ->
  (nonzero_negatives (nth b label []) (nth b (conf_terms S conf_loss label k) [])
   <= k * count_true (nth b (gt0 label) []))%Z.
Proof.
  intros Hk. destruct (Nat.lt_ge_cases b (length label)) as [Hb|Hb].
  - rewrite conf_terms_rows. unfold gt0.
    rewrite (nth_map_lt _ _ b [] []) by exact Hb.
    rewrite (nth_map_lt _ _ b [] []) by exact Hb.
    set (labels := nth b label []). unfold selected_row.
    etransitivity; [apply nonzero_negatives_le|].
    rewrite count_hard_neg_row.
    pose proof (count_true_range (map (fun v => (0 <? v)%Z) labels)). nia.
  - rewrite !nth_overflow;
      [| unfold gt0; rewrite length_map; exact Hb
       | rewrite conf_terms_rows, length_map; exact Hb | exact Hb].
    unfold nonzero_negatives, count_true. simpl. lia.
Qed.

Lemma marked_negatives_bound_example :
  (nonzero_negatives (nth 0 [[2; 0; 0; 0; 0; -1]%Z] [])
     (nth 0 (conf_terms stable 1 [[2; 0; 0; 0; 0; -1]%Z] 3) [])
   <= 3 * count_true (nth 0 (gt0 [[2; 0; 0; 0; 0; -1]%Z]) []))%Z.
Proof. apply (marked_negatives_bound stable 1 [[2; 0; 0; 0; 0; -1]%Z] 3 0). lia. Qed.

(** [forward] divides the two sums of [loc_loss_sum] and [conf_loss_sum]. *)
Lemma forward_sums (S : sorter) (xloc xconf loc : tensor3 R) (label : tensor2 Z) (k : Z) :
  forward S xloc xconf loc label k
  = (l <- loc_loss_sum xloc loc label ;;
     c <- conf_loss_sum S xconf label k ;;
     Some (l / (sum_all (to_float (gt0 label)) + eps),
           c / (sum_all (to_float (gt0 label)) + eps))).
Proof.
  unfold forward, loc_loss_sum, conf_loss_sum, conf_terms, selected.
  destruct (view4 (masked_select xloc (expand_as (gt0 label) xloc))); [|reflexivity].
  destruct (view4 (masked_select loc (expand_as (gt0 label) xloc))); [|reflexivity].
  simpl. destruct (CrossEntropyLoss (-1) (transpose12 xconf) (clamp_min0 label));
    reflexivity.
Qed.

(** ** The normalizer *)

Lemma Rsum_b2r (row : list bool) : Rsum (map b2r row) = IZR (count_true row).
Proof.
  induction row as [|b row IH]; [reflexivity|].
  change (count_true (b :: row)) with (b2z b + count_true row)%Z.
  rewrite plus_IZR. simpl. rewrite IH. destruct b; simpl; lra.
Qed.

Lemma sum_all_to_float (t : tensor2 bool) :
  sum_all (to_float t) = IZR (Zsum (map count_true t)).
Proof.
  unfold sum_all, to_float. induction t as [|row t IH]; [reflexivity|].
  cbn [map concat Zsum fold_right]. rewrite Rsum_app, IH, Rsum_b2r, plus_IZR.
  reflexivity.
Qed.

Lemma count_positive_nonneg (label : tensor2 Z) : (0 <= count_positive label)%Z.
Proof.
  unfold count_positive. induction (gt0 label) as [|row t IH]; simpl; [lia|].
  pose proof (count_true_range row). lia.
Qed.

Lemma forward_normalized (S : sorter) (xloc xconf loc : tensor3 R)
    (label : tensor2 Z) (k : Z) :
  forward S xloc xconf loc label k
  = (l <- loc_loss_sum xloc loc label ;;
     c <- conf_loss_sum S xconf label k ;;
     Some (l / (IZR (count_positive label) + 1 / 1000),
           c / (IZR (count_positive label) + 1 / 1000))).
Proof. rewrite forward_sums, sum_all_to_float. reflexivity. Qed.

(** C5: [forward] divides both sums by the same
    [N = (number of positive anchors of the batch) + 1e-3], on every input
    and without a case distinction on the count; [N] is at least [1e-3],
    hence positive, and equals [1e-3] for a batch without positive
    anchors. *)
Theorem normalizer_positive (S : sorter) (xloc xconf loc : tensor3 R)
    (label : tensor2 Z) (k : Z) :
  let N := IZR (count_positive label) + 1 / 1000 in
  forward S xloc xconf loc label k
  = (l <- loc_loss_sum xloc loc label ;;
     c <- conf_loss_sum S xconf label k ;;
     Some (l / N, c / N)) /\
  0 < 1 / 1000 <= N /\
  (count_positive label = 0%Z -> N = 1 / 1000).
Proof.
  intros N. split; [|split].
  - apply forward_normalized.
  - pose proof (IZR_le _ _ (count_positive_nonneg label)). unfold N. lra.
  - intros H0. unfold N. rewrite H0. lra.
Qed.

(** ** The localization loss *)

Lemma combine_app_eq {A B : Type} (a c : list A) (b d : list B) :
  length a = length b -> combine (a ++ c) (b ++ d) = combine a b ++ combine c d.
Proof.
  revert b; induction a as [|x a IH]; intros [|y b] H; simpl in *; try lia.
  - reflexivity.
  - rewrite IH by lia. reflexivity.
Qed.

Lemma pick_row (p : bool) (row : list R) (row' : list R) :
  length row = length row' ->
  flat_map pick (combine row (map (fun _ => p) row')) = if p then row else [].
Proof.
  revert row'; induction row as [|v row IH]; intros [|v' row'] H; simpl in *; try lia.
  - now destruct p.
  - rewrite IH by lia. destruct p; reflexivity.
Qed.

Lemma length_concat_rows {T : Type} (X : nat) (xs : list (list T)) :
  Forall (fun row => length row = X) xs -> length (concat xs) = (length xs * X)%nat.
Proof.
  induction 1 as [|row xs Hr Hall IH]; simpl; [reflexivity|].
  rewrite length_app, IH, Hr. reflexivity.
Qed.

Lemma expand_row_lengths (X : nat) (prow : list bool) (xs : list (list R)) :
  Forall (fun row => length row = X) xs ->
  Forall (fun row => length row = X)
         (map2 (fun (p : bool) (row : list R) => map (fun _ => p) row) prow xs).
Proof.
  revert xs; induction prow as [|p prow IH]; intros [|r xs] Hx; simpl; try constructor.
  - rewrite length_map. now inversion Hx.
  - apply IH. now inversion Hx.
Qed.

Lemma pick_sample (X : nat) (prow : list bool) (xs ys : list (list R)) :
  length prow = length xs -> length xs = length ys ->
  Forall (fun row => length row = X) xs -> Forall (fun row => length row = X) ys ->
  flat_map pick (combine (concat ys)
                   (concat (map2 (fun (p : bool) row => map (fun _ => p) row) prow xs)))
  = msel_sample prow ys.
Proof.
  unfold msel_sample.
  revert xs ys; induction prow as [|p prow IH]; intros [|x xs] [|y ys] H1 H2 Hx Hy;
    simpl in *; try lia; try reflexivity.
  inversion Hx; subst. inversion Hy; subst.
  rewrite combine_app_eq by (rewrite length_map; congruence).
  rewrite flat_map_app, pick_row by congruence.
  rewrite IH by (assumption || lia). reflexivity.
Qed.

Lemma masked_select_rows (A X : nat) (pos : tensor2 bool) (x y : tensor3 R) :
  length pos = length x -> length x = length y ->
  Forall (fun prow => length prow = A) pos ->
  Forall (shape2 A X) x -> Forall (shape2 A X) y ->
  masked_select y (expand_as pos x) = concat (map2 msel_sample pos y).
Proof.
  unfold masked_select, expand_as.
  revert x y; induction pos as [|prow pos IH]; intros [|xs x] [|ys y] H1 H2 Hp Hx Hy;
    simpl in *; try lia; try reflexivity.
  inversion Hp; subst. inversion Hx as [|? ? [Hxl Hxr]]; subst.
  inversion Hy as [|? ? [Hyl Hyr]]; subst.
  rewrite combine_app_eq.
  - rewrite flat_map_app. rewrite (pick_sample X) by (assumption || congruence).
    rewrite IH by (assumption || lia). reflexivity.
  - rewrite (length_concat_rows X) by assumption.
    rewrite (length_concat_rows X).
    + rewrite length_map2. f_equal. lia.
    + apply expand_row_lengths, Hxr.
Qed.

Lemma view4_ok (n : nat) (l : list R) :
  length l = (4 * n)%nat -> exists rows, view4 l = Some rows /\ concat rows = l.
Proof.
  revert l; induction n as [|n IH]; intros l Hl.
  - destruct l; [|simpl in Hl; lia]. exists []. split; reflexivity.
  - destruct l as [|a [|b [|c [|d l]]]]; simpl in Hl; try lia.
    destruct (IH l) as (rows & Hv & Hc); [lia|].
    exists ([a; b; c; d] :: rows). simpl. rewrite Hv. simpl. now rewrite Hc.
Qed.

Lemma length_msel_sample (X : nat) (prow : list bool) (xs : list (list R)) :
  Forall (fun row => length row = X) xs ->
  exists n, length (msel_sample prow xs) = (X * n)%nat.
Proof.
  unfold msel_sample.
  revert xs; induction prow as [|p prow IH]; intros [|x xs] Hx; simpl;
    try (exists 0%nat; lia).
  inversion Hx; subst. destruct (IH xs) as [n Hn]; [assumption|].
  rewrite length_app, Hn. destruct p; simpl.
  - exists (Datatypes.S n). lia.
  - exists n. lia.
Qed.

Lemma length_msel_batch (A X : nat) (pos : tensor2 bool) (x : tensor3 R) :
  Forall (shape2 A X) x ->
  exists n, length (concat (map2 msel_sample pos x)) = (X * n)%nat.
Proof.
  revert x; induction pos as [|prow pos IH]; intros [|xs x] Hx; simpl;
    try (exists 0%nat; lia).
  inversion Hx as [|? ? [_ Hr]]; subst.
  destruct (IH x) as [n Hn]; [assumption|].
  destruct (length_msel_sample X prow xs Hr) as [m Hm].
  rewrite length_app, Hn, Hm. exists (m + n)%nat. lia.
Qed.

Lemma map2_combine {A B C : Type} (f : A -> B -> C) (l : list A) (m : list B) :
  map2 f l m = map (fun '(a, b) => f a b) (combine l m).
Proof.
  revert m; induction l as [|a l IH]; intros [|b m]; simpl; try reflexivity.
  now rewrite IH.
Qed.

Lemma length_msel_same (X : nat) (prow : list bool) (xs ys : list (list R)) :
  length xs = length ys ->
  Forall (fun row => length row = X) xs -> Forall (fun row => length row = X) ys ->
  length (msel_sample prow xs) = length (msel_sample prow ys).
Proof.
  unfold msel_sample.
  revert xs ys; induction prow as [|p prow IH]; intros [|x xs] [|y ys] H Hx Hy;
    simpl in *; try lia.
  inversion Hx; subst. inversion Hy; subst.
  rewrite !length_app, (IH xs ys) by (assumption || lia).
  destruct p; simpl; congruence.
Qed.

(** One sample: the loss over the selected entries is the sum over the
    positive anchors of the distance over their coordinates. *)
Lemma sample_loc_loss_eq (X : nat) (labels : list Z) (xs ys : list (list R)) :
  length labels = length xs -> length xs = length ys ->
  Forall (fun row => length row = X) xs -> Forall (fun row => length row = X) ys ->
  Rsum (map (fun '(a, b) => smooth_l1 (a - b))
          (combine (msel_sample (map (fun v => (0 <? v)%Z) labels) xs)
                   (msel_sample (map (fun v => (0 <? v)%Z) labels) ys)))
  = sample_loc_loss labels xs ys.
Proof.
  unfold sample_loc_loss, msel_sample.
  revert xs ys; induction labels as [|l labels IH]; intros [|x xs] [|y ys] H1 H2 Hx Hy;
    simpl in *; try lia; try reflexivity.
  inversion Hx; subst. inversion Hy; subst.
  rewrite combine_app_eq by (destruct (0 <? l)%Z; simpl; congruence).
  rewrite map_app, Rsum_app, IH by (assumption || lia).
  f_equal. destruct (0 <? l)%Z; [|reflexivity].
  unfold anchor_loc_loss. now rewrite map2_combine.
Qed.

Lemma batch_loc_loss_eq (A X : nat) (label : tensor2 Z) (xloc loc : tensor3 R) :
  length label = length xloc -> length xloc = length loc ->
  Forall (fun row => length row = A) label ->
  Forall (shape2 A X) xloc -> Forall (shape2 A X) loc ->
  Rsum (map (fun '(a, b) => smooth_l1 (a - b))
          (combine (concat (map2 msel_sample (gt0 label) xloc))
                   (concat (map2 msel_sample (gt0 label) loc))))
  = positive_loc_loss label xloc loc.
Proof.
  unfold positive_loc_loss, gt0.
  revert xloc loc; induction label as [|labels label IH];
    intros [|xs x] [|ys y] H1 H2 Hl Hx Hy; simpl in *; try lia; try reflexivity.
  inversion Hl; subst. inversion Hx as [|? ? [Hxl Hxr]]; subst.
  inversion Hy as [|? ? [Hyl Hyr]]; subst.
  rewrite combine_app_eq by (apply (length_msel_same X); (assumption || congruence)).
  rewrite map_app, Rsum_app, IH by (assumption || lia).
  f_equal. apply (sample_loc_loss_eq X); (assumption || congruence).
Qed.

Lemma loc_loss_sum_eq (xloc loc : tensor3 R) (label : tensor2 Z) (B A : nat) :
  shape2 B A label -> shape3 B A 4 xloc -> shape3 B A 4 loc ->
  loc_loss_sum xloc loc label = Some (positive_loc_loss label xloc loc).
Proof.
  intros [Hlb Hlr] [Hxb Hxr] [Hyb Hyr].
  unfold loc_loss_sum.
  assert (Hp : Forall (fun prow => length prow = A) (gt0 label)).
  { unfold gt0. apply Forall_forall. intros prow Hin. apply in_map_iff in Hin.
    destruct Hin as (r & <- & Hr). rewrite length_map.
    rewrite Forall_forall in Hlr. apply Hlr, Hr. }
  assert (Hpl : length (gt0 label) = length xloc)
    by (unfold gt0; rewrite length_map; congruence).
  rewrite (masked_select_rows A 4 (gt0 label) xloc xloc) by (assumption || congruence).
  rewrite (masked_select_rows A 4 (gt0 label) xloc loc) by (assumption || congruence).
  destruct (length_msel_batch A 4 (gt0 label) xloc Hxr) as [n Hn].
  destruct (length_msel_batch A 4 (gt0 label) loc Hyr) as [m Hm].
  destruct (view4_ok n _ Hn) as (input & Hvi & Hci).
  destruct (view4_ok m _ Hm) as (target & Hvt & Hct).
  rewrite Hvi, Hvt. simpl. f_equal. unfold smooth_l1_loss. rewrite Hci, Hct.
  apply (batch_loc_loss_eq A 4); (assumption || congruence).
Qed.

(** C4: on tensors of the shapes [forward] is called with (labels [B, A],
    location deltas [B, A, 4]), the localization loss is the smooth-L1
    distance summed over the four coordinates of the anchors with a label
    above 0 and over nothing else (an anchor with a label of 0 or below
    adds the term 0), and [forward] returns that sum divided by [N]. *)
Theorem loc_loss_positive_only (S : sorter) (xloc xconf loc : tensor3 R)
    (label : tensor2 Z) (k : Z) (B A : nat) :
  shape2 B A label -> shape3 B A 4 xloc -> shape3 B A 4 loc ->
  let N := IZR (count_positive label) + 1 / 1000 in
  loc_loss_sum xloc loc label = Some (positive_loc_loss label xloc loc) /\
  forward S xloc xconf loc label k
  = (c <- conf_loss_sum S xconf label k ;;
     Some (positive_loc_loss label xloc loc / N, c / N)).
Proof.
  intros Hl Hx Hy N.
  pose proof (loc_loss_sum_eq xloc loc label B A Hl Hx Hy) as Hsum.
  split; [exact Hsum|].
  rewrite forward_normalized, Hsum. reflexivity.
Qed.

Lemma loc_loss_positive_only_witness :
  let xloc := [[[1; 2; 3; 4]; [0; 0; 0; 0]]] in
  let loc := [[[1; 2; 3; 6]; [5; 5; 5; 5]]] in
  let label := [[4; 0]%Z] in
  let N := IZR (count_positive label) + 1 / 1000 in
  loc_loss_sum xloc loc label = Some (positive_loc_loss label xloc loc) /\
  forward stable xloc [[[0; 0; 0; 0; 1]; [1; 0; 0; 0; 0]]] loc label 3
  = (c <- conf_loss_sum stable [[[0; 0; 0; 0; 1]; [1; 0; 0; 0; 0]]] label 3 ;;
     Some (positive_loc_loss label xloc loc / N, c / N)).
Proof.
  apply (loc_loss_positive_only stable [[[1; 2; 3; 4]; [0; 0; 0; 0]]] _
           [[[1; 2; 3; 6]; [5; 5; 5; 5]]] [[4; 0]%Z] 3 1 2).
  - split; [reflexivity | repeat constructor].
  - split; [reflexivity | repeat constructor].
  - split; [reflexivity | repeat constructor].
Defined.

(** ** The classification loss as the code computes it *)

Lemma count_le_of_subset (n m : list bool) :
  length n = length m ->
  (forall i, nth i n false = true -> nth i m false = true) ->
  (count_true n <= count_true m)%Z.
Proof.
  revert m; induction n as [|x n IH]; intros [|y m] Hlen Hsub; simpl in Hlen; try lia.
  change (count_true (x :: n)) with (b2z x + count_true n)%Z.
  change (count_true (y :: m)) with (b2z y + count_true m)%Z.
  specialize (IH m ltac:(lia) (fun i => Hsub (Datatypes.S i))).
  specialize (Hsub 0%nat). simpl in Hsub.
  destruct x, y; simpl b2z; try lia; specialize (Hsub eq_refl); discriminate.
Qed.

Lemma count_lt_of_subset (n m : list bool) (a : nat) :
  length n = length m ->
  (forall i, nth i n false = true -> nth i m false = true) ->
  nth a m false = true -> nth a n false = false ->
  (count_true n < count_true m)%Z.
Proof.
  revert m a; induction n as [|x n IH]; intros [|y m] a Hlen Hsub Hm Hn;
    simpl in Hlen; try lia.
  - destruct a; discriminate.
  - change (count_true (x :: n)) with (b2z x + count_true n)%Z.
    change (count_true (y :: m)) with (b2z y + count_true m)%Z.
    pose proof (Hsub 0%nat) as H0. simpl in H0.
    destruct a as [|a]; simpl in Hm, Hn.
    + subst. pose proof (count_le_of_subset n m ltac:(lia) (fun i => Hsub (Datatypes.S i))).
      simpl b2z. lia.
    + specialize (IH m a ltac:(lia) (fun i => Hsub (Datatypes.S i)) Hm Hn).
      destruct x, y; simpl b2z; try lia; specialize (H0 eq_refl); discriminate.
Qed.

Lemma count_disjoint_union (p h : list bool) :
  length p = length h ->
  (forall i, nth i h false = true -> nth i p false = false) ->
  count_true (map (fun v => (0 <? v)%Z) (map2 (fun a b => (b2z a + b2z b)%Z) p h))
  = (count_true p + count_true h)%Z.
Proof.
  revert h; induction p as [|x p IH]; intros [|y h] Hlen Hd; simpl in Hlen; try lia.
  - reflexivity.
  - cbn [map2 map].
    change (count_true (?u :: ?r)) with (b2z u + count_true r)%Z.
    change (count_true (x :: p)) with (b2z x + count_true p)%Z.
    change (count_true (y :: h)) with (b2z y + count_true h)%Z.
    change (count_true ((0 <? b2z x + b2z y)%Z
                        :: map (fun v => (0 <? v)%Z)
                             (map2 (fun a b => (b2z a + b2z b)%Z) p h)))
      with (b2z (0 <? b2z x + b2z y)%Z
            + count_true (map (fun v => (0 <? v)%Z)
                            (map2 (fun a b => (b2z a + b2z b)%Z) p h)))%Z.
    rewrite (IH h) by (lia || exact (fun i => Hd (Datatypes.S i))).
    assert (Hxy : b2z (0 <? b2z x + b2z y)%Z = (b2z x + b2z y)%Z).
    { destruct x, y; try reflexivity. specialize (Hd 0%nat eq_refl). discriminate. }
    rewrite Hxy. lia.
Qed.

Lemma nth_neg_keys (c : R) (labels : list Z) (j : nat) :
  (j < length labels)%nat ->
  nth j (neg_keys c labels) 0
  = c * (-1 * b2r (nth j (map (fun v => (v =? 0)%Z) labels) false)).
Proof.
  intros Hj. unfold neg_keys.
  rewrite (nth_map_lt _ _ j 0 0) by now rewrite !length_map.
  rewrite (nth_map_lt _ _ j false 0) by now rewrite length_map.
  reflexivity.
Qed.

Lemma nth_hard_neg_row (S : sorter) (c : R) (k : Z) (labels : list Z) (j : nat) :
  (j < length labels)%nat ->
  nth j (hard_neg_row S c k labels) false
  = (Z.of_nat (nth j (rank_of S (neg_keys c labels)) 0%nat)
     <? count_true (map (fun v => (0 <? v)%Z) labels) * k)%Z.
Proof.
  intros Hj. unfold hard_neg_row.
  rewrite (nth_map_lt _ _ j 0%nat false); [reflexivity|].
  rewrite length_rank. unfold neg_keys. now rewrite !length_map.
Qed.

(** With a positive loss and at least [k * positives] negatives in the
    sample, every anchor the hard-negative mask marks is a negative. *)
Lemma hard_neg_are_negatives (S : sorter) (c : R) (k : Z) (labels : list Z) (a : nat) :
  0 < c ->
  (count_true (map (fun v => (0 <? v)%Z) labels) * k
   <= count_true (map (fun v => (v =? 0)%Z) labels))%Z ->
  nth a (hard_neg_row S c k labels) false = true ->
  nth a (map (fun v => (v =? 0)%Z) labels) false = true.
Proof.
  intros Hc Hmany Ha.
  destruct (nth a (map (fun v => (v =? 0)%Z) labels) false) eqn:Hna; [reflexivity|].
  exfalso.
  assert (Hal : (a < length labels)%nat).
  { destruct (Nat.lt_ge_cases a (length labels)) as [H|H]; [exact H|].
    rewrite nth_overflow in Ha by (rewrite length_hard_neg_row; exact H). discriminate. }
  assert (Hlt : (count_true (map (fun v => (v =? 0)%Z) labels)
                 < count_true (hard_neg_row S c k labels))%Z).
  { apply (count_lt_of_subset _ _ a).
    - now rewrite length_map, length_hard_neg_row.
    - intros j Hj.
      assert (Hjl : (j < length labels)%nat).
      { destruct (Nat.lt_ge_cases j (length labels)) as [H|H]; [exact H|].
        rewrite nth_overflow in Hj by (rewrite length_map; exact H). discriminate. }
      rewrite nth_hard_neg_row in Ha |- * by assumption.
      apply Z.ltb_lt in Ha. apply Z.ltb_lt.
      assert ((nth j (rank_of S (neg_keys c labels)) 0
               < nth a (rank_of S (neg_keys c labels)) 0)%nat); [|lia].
      apply rank_lt; try (unfold neg_keys; rewrite !length_map; assumption).
      rewrite !nth_neg_keys, Hj, Hna by assumption. simpl. lra.
    - exact Ha.
    - exact Hna. }
  rewrite count_hard_neg_row in Hlt.
  pose proof (count_true_range (map (fun v => (v =? 0)%Z) labels)). lia.
Qed.

Lemma Rsum_scale (c : R) (l : list R) : Rsum (map (fun v => c * v) l) = c * Rsum l.
Proof. induction l as [|a l IH]; simpl; [ring | rewrite IH; ring]. Qed.

(** The sum of line 30 is the scalar of line 27 times the number of anchors
    the mask of line 29 marks. *)
Lemma conf_sum_is_mean_times_count (S : sorter) (c : R) (label : tensor2 Z) (k : Z) :
  sum_all (conf_terms S c label k)
  = c * IZR (Zsum (map (fun labels => count_true (selected_row S c k labels)) label)).
Proof.
  rewrite conf_terms_rows. unfold sum_all.
  induction label as [|labels label IH]; [simpl; lra|].
  cbn [map concat Zsum fold_right]. rewrite Rsum_app, IH, Rsum_scale, Rsum_b2r, plus_IZR.
  unfold Zsum. ring.
Qed.

Lemma neg_not_pos (labels : list Z) (i : nat) :
  nth i (map (fun v => (v =? 0)%Z) labels) false = true ->
  nth i (map (fun v => (0 <? v)%Z) labels) false = false.
Proof.
  revert i; induction labels as [|l labels IH]; intros [|i]; simpl; auto.
  destruct (Z.eqb_spec l 0), (Z.ltb_spec 0 l); auto; lia.
Qed.

(** With a positive loss and enough negatives, a sample has its positives
    and [k] times as many hard negatives selected. *)
Lemma count_selected_row (S : sorter) (c : R) (k : Z) (labels : list Z) :
  0 < c -> (0 <= k)%Z ->
  (count_true (map (fun v => (0 <? v)%Z) labels) * k
   <= count_true (map (fun v => (v =? 0)%Z) labels))%Z ->
  count_true (selected_row S c k labels)
  = (count_true (map (fun v => (0 <? v)%Z) labels) * (1 + k))%Z.
Proof.
  intros Hc Hk Hmany. unfold selected_row.
  rewrite count_disjoint_union.
  - rewrite count_hard_neg_row.
    pose proof (count_true_range (map (fun v => (0 <? v)%Z) labels)).
    pose proof (count_true_range (map (fun v => (v =? 0)%Z) labels)) as Hn.
    rewrite length_map in Hn. nia.
  - now rewrite length_map, length_hard_neg_row.
  - intros i Hi. apply neg_not_pos.
    apply (hard_neg_are_negatives S c k); assumption.
Qed.

(** ** Cross-entropy is positive over two or more classes *)

Lemma Rsum_exp_nonneg (l : list R) : 0 <= Rsum (map exp l).
Proof.
  induction l as [|a l IH]; simpl; [lra|]. pose proof (exp_pos a). lra.
Qed.

Lemma exp_le_Rsum_exp (l : list R) (t : nat) :
  (t < length l)%nat -> exp (nth t l 0) <= Rsum (map exp l).
Proof.
  revert t; induction l as [|a l IH]; intros t Ht; simpl in *; [lia|].
  destruct t as [|t].
  - pose proof (Rsum_exp_nonneg l). lra.
  - specialize (IH t ltac:(lia)). pose proof (exp_pos a). lra.
Qed.

Lemma exp_lt_Rsum_exp (l : list R) (t : nat) :
  (t < length l)%nat -> (2 <= length l)%nat -> exp (nth t l 0) < Rsum (map exp l).
Proof.
  intros Ht H2. destruct l as [|a [|b l]]; simpl in H2; try lia.
  destruct t as [|t].
  - simpl. pose proof (exp_pos b). pose proof (Rsum_exp_nonneg l). lra.
  - change (nth (Datatypes.S t) (a :: b :: l) 0) with (nth t (b :: l) 0).
    change (Rsum (map exp (a :: b :: l))) with (exp a + Rsum (map exp (b :: l))).
    pose proof (exp_le_Rsum_exp (b :: l) t ltac:(simpl in *; lia)).
    pose proof (exp_pos a). lra.
Qed.

Lemma nll_pos (logits : list R) (t : nat) :
  (t < length logits)%nat -> (2 <= length logits)%nat -> 0 < nll logits t.
Proof.
  intros Ht H2. unfold nll.
  pose proof (exp_lt_Rsum_exp logits t Ht H2) as Hlt.
  apply ln_increasing in Hlt; [|apply exp_pos]. rewrite ln_exp in Hlt. lra.
Qed.

(** ** The code at example batches *)

Import Batches.

Lemma lse10_gt_1 : 1 < lse10.
Proof.
  pose proof (nll_pos [1; 0] 0 ltac:(simpl; lia) ltac:(simpl; lia)) as H.
  unfold nll in H. simpl in H. unfold lse10. lra.
Qed.

Lemma ce_a : CrossEntropyLoss (-1) (transpose12 xconf_a) (clamp_min0 label_a) = Some (lse10 - 4 / 5).
Proof.
  unfold CrossEntropyLoss, xconf_a, label_a, lse10.
  cbn -[nll Rplus Rdiv exp ln Rminus Rmult IZR]. unfold nll.
  cbn -[Rplus Rdiv exp ln Rminus Rmult IZR]. change (Pos.to_nat 1) with 1%nat. cbv iota. f_equal. field.
Qed.

Lemma conf_a (S : sorter) : conf_loss_sum S xconf_a label_a 3 = Some ((lse10 - 4/5) * 4).
Proof.
  unfold conf_loss_sum. rewrite ce_a. cbn [bind]. f_equal.
  rewrite conf_sum_is_mean_times_count. unfold label_a. cbn [map Zsum fold_right].
  rewrite count_selected_row.
  - f_equal. 
  - pose proof lse10_gt_1; lra.
  - lia.
  - vm_compute. discriminate.
Qed.

Lemma length_selected_row (S : sorter) (c : R) (k : Z) (labels : list Z) :
  length (selected_row S c k labels) = length labels.
Proof.
  unfold selected_row. rewrite length_map, length_map2, length_map, length_hard_neg_row.
  apply Nat.min_id.
Qed.

Lemma selected_row_pos (S : sorter) (c : R) (k : Z) (labels : list Z) (a : nat) :
  nth a (map (fun v => (0 <? v)%Z) labels) false = true ->
  nth a (selected_row S c k labels) false = true.
Proof.
  intros Hp.
  assert (Ha : (a < length labels)%nat).
  { destruct (Nat.lt_ge_cases a (length labels)) as [H|H]; [exact H|].
    rewrite nth_overflow in Hp by (rewrite length_map; exact H). discriminate. }
  unfold selected_row.
  rewrite (nth_map_lt _ _ a 0%Z false)
    by (rewrite length_map2, length_map, length_hard_neg_row; lia).
  rewrite (nth_map2 _ _ _ a false false 0%Z)
    by (rewrite ?length_map, ?length_hard_neg_row; lia).
  rewrite Hp. destruct (nth a (hard_neg_row S c k labels) false); reflexivity.
Qed.

Lemma zeros_shape (n : nat) : shape3 1 n 4 (zeros n).
Proof.
  split; [reflexivity|]. constructor; [|constructor]. split; [apply repeat_length|].
  apply Forall_forall. intros row Hin. apply repeat_spec in Hin. now subst.
Qed.

(** C2: the code at a batch of one positive and four negative anchors, all
    with the logits [1, 0], and [k = 3].  Whatever the order of equal keys,
    the classification loss returned is four times the mean cross-entropy
    of the five anchors, divided by [N]; it differs from the sum of the
    selected anchors' own cross-entropies divided by [N]. *)
Theorem conf_loss_is_batch_mean (S : sorter) :
  exists l v c,
    forward S (zeros 5) xconf_a (zeros 5) label_a 3 = Some (l, v) /\
    CrossEntropyLoss (-1) (transpose12 xconf_a) (clamp_min0 label_a) = Some c /\
    v = 4 * c / (1 + 1 / 1000) /\
    v <> per_anchor_conf_sum (selected S c label_a 3) xconf_a label_a / (1 + 1 / 1000).
Proof.
  exists (positive_loc_loss label_a (zeros 5) (zeros 5) / (1 + 1 / 1000)),
         ((lse10 - 4 / 5) * 4 / (1 + 1 / 1000)), (lse10 - 4 / 5).
  split; [|split; [exact ce_a | split; [field|]]].
  - rewrite forward_normalized.
    rewrite (loc_loss_sum_eq (zeros 5) (zeros 5) label_a 1 5);
      [| split; [reflexivity | repeat constructor] | apply zeros_shape | apply zeros_shape].
    rewrite conf_a. reflexivity.
  - rewrite selected_rows. unfold label_a at 1. cbn [map].
    pose proof (length_selected_row S (lse10 - 4 / 5) 3 [1; 0; 0; 0; 0]%Z) as Hlen.
    pose proof (selected_row_pos S (lse10 - 4 / 5) 3 [1; 0; 0; 0; 0]%Z 0 eq_refl) as H0.
    pose proof (count_selected_row S (lse10 - 4 / 5) 3 [1; 0; 0; 0; 0]%Z) as Hc.
    pose proof lse10_gt_1 as HM.
    specialize (Hc ltac:(lra) ltac:(lia) ltac:(vm_compute; discriminate)).
    destruct (selected_row S (lse10 - 4 / 5) 3 [1; 0; 0; 0; 0]%Z)
      as [|s0 [|s1 [|s2 [|s3 [|s4 [|s5 rest]]]]]]; simpl in Hlen; try lia.
    simpl in H0. subst s0.
    unfold per_anchor_conf_sum, per_anchor_sum, xconf_a, label_a, anchor_ce, nll.
    cbn -[Rplus Rdiv exp ln Rminus Rmult IZR].
    change (Pos.to_nat 1) with 1%nat. cbv iota. fold lse10.
    intros Heq. apply Rmult_eq_reg_r in Heq; [|lra].
    destruct s1, s2, s3, s4; vm_compute in Hc; try discriminate; lra.
Qed.

Lemma lse01_eq : ln (exp 0 + (exp 1 + 0)) = lse10.
Proof. unfold lse10. f_equal. ring. Qed.

Ltac eval_ce :=
  unfold CrossEntropyLoss;
  cbn -[nll Rplus Rdiv exp ln Rminus Rmult IZR]; unfold nll;
  cbn -[Rplus Rdiv exp ln Rminus Rmult IZR];
  change (Pos.to_nat 1) with 1%nat; cbv iota;
  rewrite ?lse01_eq; fold lse10; f_equal; field.

Lemma ce_b : CrossEntropyLoss (-1) (transpose12 xconf_b) (clamp_min0 label_b) = Some (lse10 - 1 / 3).
Proof. unfold xconf_b, label_b. eval_ce. Qed.

Lemma ce_b' : CrossEntropyLoss (-1) (transpose12 xconf_b') (clamp_min0 label_b) = Some (lse10 - 1 / 3).
Proof. unfold xconf_b', label_b. eval_ce. Qed.

(** C3: the code at a sample of one positive and two negative anchors with
    [k = 1].  The mask depends on the logits through the batch mean only,
    so for every order of equal keys one of two batches that differ by an
    exchange of the two negatives has the negative with the strictly
    smaller cross-entropy retained and the other one discarded. *)
Theorem hard_negatives_ignore_anchor_loss (S : sorter) :
  exists xconf c a a',
    (xconf = xconf_b \/ xconf = xconf_b') /\
    CrossEntropyLoss (-1) (transpose12 xconf) (clamp_min0 label_b) = Some c /\
    let mask := nth 0 (_hard_negative_mining S (Scalar c) (gt0 label_b) (eq0 label_b) 1) [] in
    nth a (nth 0 label_b []) 1%Z = 0%Z /\ nth a' (nth 0 label_b []) 1%Z = 0%Z /\
    nth a mask false = true /\ nth a' mask false = false /\
    anchor_ce (nth a (nth 0 xconf []) []) 0 < anchor_ce (nth a' (nth 0 xconf []) []) 0.
Proof.
  pose proof lse10_gt_1 as HM.
  assert (Hc : 0 < lse10 - 1 / 3) by lra.
  pose proof (length_hard_neg_row S (lse10 - 1 / 3) 1 [1; 0; 0]%Z) as Hlen.
  pose proof (count_hard_neg_row S (lse10 - 1 / 3) 1 [1; 0; 0]%Z) as Hcount.
  pose proof (hard_neg_are_negatives S (lse10 - 1 / 3) 1 [1; 0; 0]%Z 0 Hc
                ltac:(vm_compute; discriminate)) as H0.
  assert (Hmask : _hard_negative_mining S (Scalar (lse10 - 1 / 3)) (gt0 label_b) (eq0 label_b) 1
                  = [hard_neg_row S (lse10 - 1 / 3) 1 [1; 0; 0]%Z])
    by (rewrite hnm_rows; reflexivity).
  assert (Hlo : anchor_ce [1; 0] 0 < anchor_ce [0; 1] 0).
  { unfold anchor_ce, nll. cbn -[Rplus Rdiv exp ln Rminus Rmult IZR].
    rewrite lse01_eq. fold lse10. lra. }
  destruct (hard_neg_row S (lse10 - 1 / 3) 1 [1; 0; 0]%Z) as [|h0 [|h1 [|h2 [|h3 rest]]]];
    simpl in Hlen; try lia.
  simpl in H0. destruct h0; [specialize (H0 eq_refl); discriminate|].
  destruct h1, h2; vm_compute in Hcount; try discriminate.
  - exists xconf_b, (lse10 - 1 / 3), 1%nat, 2%nat.
    split; [left; reflexivity|]. split; [exact ce_b|].
    rewrite Hmask. simpl. repeat split; try reflexivity. exact Hlo.
  - exists xconf_b', (lse10 - 1 / 3), 2%nat, 1%nat.
    split; [right; reflexivity|]. split; [exact ce_b'|].
    rewrite Hmask. simpl. repeat split; try reflexivity. exact Hlo.
Qed.

Lemma ce_c : CrossEntropyLoss (-1) (transpose12 xconf_c) (clamp_min0 label_c) = Some (lse10 - 4 / 5).
Proof. unfold xconf_c, label_c. eval_ce. Qed.

Lemma ce_c' : CrossEntropyLoss (-1) (transpose12 xconf_c') (clamp_min0 label_c) = Some (lse10 - 3 / 5).
Proof. unfold xconf_c', label_c. eval_ce. Qed.

Lemma conf_c (S : sorter) (xconf : tensor3 R) (c : R) :
  CrossEntropyLoss (-1) (transpose12 xconf) (clamp_min0 label_c) = Some c -> 0 < c ->
  conf_loss_sum S xconf label_c 3 = Some (c * 4).
Proof.
  intros Hce Hc. unfold conf_loss_sum. rewrite Hce. cbn [bind]. f_equal.
  rewrite conf_sum_is_mean_times_count. unfold label_c. cbn [map Zsum fold_right].
  rewrite count_selected_row; [f_equal | exact Hc | lia | vm_compute; discriminate].
Qed.

(** C8: the code at a batch whose fifth anchor has the label -1.  That
    anchor is neither positive nor negative and leaves the localization
    loss alone, but two batches that differ in its logits only get
    different classification losses: [clamp(min=0)] has turned its label
    into 0 before the cross-entropy, whose mean it enters. *)
Theorem ignored_anchor_changes_conf_loss (S : sorter) :
  nth 4 (nth 0 (gt0 label_c) []) true = false /\
  nth 4 (nth 0 (eq0 label_c) []) true = false /\
  exists l v v',
    forward S (zeros 5) xconf_c (zeros 5) label_c 3 = Some (l, v) /\
    forward S (zeros 5) xconf_c' (zeros 5) label_c 3 = Some (l, v') /\
    v <> v'.
Proof.
  pose proof lse10_gt_1 as HM.
  split; [reflexivity|]. split; [reflexivity|].
  exists (positive_loc_loss label_c (zeros 5) (zeros 5) / (1 + 1 / 1000)),
         ((lse10 - 4 / 5) * 4 / (1 + 1 / 1000)), ((lse10 - 3 / 5) * 4 / (1 + 1 / 1000)).
  assert (Hloc : loc_loss_sum (zeros 5) (zeros 5) label_c
                 = Some (positive_loc_loss label_c (zeros 5) (zeros 5))).
  { apply (loc_loss_sum_eq _ _ _ 1 5);
      [split; [reflexivity | repeat constructor] | apply zeros_shape | apply zeros_shape]. }
  split; [|split].
  - rewrite forward_normalized, Hloc, (conf_c S _ _ ce_c) by lra. reflexivity.
  - rewrite forward_normalized, Hloc, (conf_c S _ _ ce_c') by lra. reflexivity.
  - intros Heq. apply Rmult_eq_reg_r in Heq; lra.
Qed.




(** Handed one loss value per anchor instead of the scalar,
    [_hard_negative_mining] does rank the negatives by their loss: a
    retained negative has no smaller loss than a discarded one. *)
Lemma mining_orders_per_anchor_loss (S : sorter) (m : tensor2 R) (label : tensor2 Z)
    (k : Z) (B A b a a' : nat) :
  shape2 B A label -> shape2 B A m -> (b < B)%nat -> (a < A)%nat -> (a' < A)%nat ->
  let mask := nth b (_hard_negative_mining S (PerAnchor m) (gt0 label) (eq0 label) k) [] in
  nth a (nth b label []) 1%Z = 0%Z -> nth a' (nth b label []) 1%Z = 0%Z ->
  nth a mask false = true -> nth a' mask false = false ->
  nth a' (nth b m []) 0 <= nth a (nth b m []) 0.
Proof.
  intros Hl Hm Hb Ha Ha' mask Hna Hna' Hma Hma'.
  assert (Hneg : shape2 B A (map (map (fun n => -1 * b2r n)) (eq0 label)))
    by (apply shape2_map, shape2_map, Hl).
  destruct (keys_row (PerAnchor m) B A _ b Hneg Hm Hb) as [Hkb Hka].
  assert (HB : length label = B) by apply Hl.
  assert (Hmask : mask = map (fun i => (Z.of_nat i <? count_true (nth b (gt0 label) []) * k)%Z)
                    (rank_of S (nth b (bmul (PerAnchor m)
                                        (map (map (fun n => -1 * b2r n)) (eq0 label))) [])))
    by (apply hnm_row; [assumption | unfold gt0; rewrite length_map; lia]).
  set (keys := nth b (bmul (PerAnchor m) (map (map (fun n => -1 * b2r n)) (eq0 label))) []) in *.
  assert (Hkey : forall i, (i < A)%nat -> nth i (nth b label []) 1%Z = 0%Z ->
                           nth i keys 0 = - nth i (nth b m []) 0).
  { intros i Hi Hz. unfold keys, bmul.
    rewrite (nth_map2 _ _ _ b [] [] []);
      [| destruct Hm; lia | unfold eq0; rewrite !length_map; lia].
    rewrite (nth_map2 _ _ _ i 0 0 0);
      [| rewrite (shape2_row B A m b Hm Hb); lia
       | rewrite (shape2_row B A _ b Hneg Hb); lia].
    unfold eq0. rewrite map_map.
    rewrite (nth_map_lt _ _ b [] []) by lia.
    rewrite (nth_map_lt _ _ i false 0)
      by (rewrite length_map, (shape2_row B A label b Hl Hb); lia).
    rewrite (nth_map_lt _ _ i 1%Z false) by (rewrite (shape2_row B A label b Hl Hb); lia).
    rewrite Hz. simpl. ring. }
  destruct (Rle_lt_dec (nth a' (nth b m []) 0) (nth a (nth b m []) 0)) as [Hle|Hlt];
    [exact Hle | exfalso].
  assert (Hr : (nth a' (rank_of S keys) 0 < nth a (rank_of S keys) 0)%nat).
  { apply rank_lt; try lia. rewrite !Hkey by assumption. lra. }
  rewrite Hmask in Hma, Hma'.
  rewrite (nth_map_lt _ _ a 0%nat false) in Hma by (rewrite length_rank; lia).
  rewrite (nth_map_lt _ _ a' 0%nat false) in Hma' by (rewrite length_rank; lia).
  apply Z.ltb_lt in Hma. apply Z.ltb_ge in Hma'. lia.
Qed.

End MultiBoxLossFacts.

(** * Properties of the rest *)

Module MultiBoxLossMore.
Import MultiBoxLoss MultiBoxLossFacts MultiBoxLossExt.

(** ** Signs *)

Lemma smooth_l1_nonneg (d : R) : 0 <= smooth_l1 d.
Proof.
  unfold smooth_l1. destruct (Rltb (Rabs d) 1) eqn:E.
  - nra.
  - apply Rltb_false in E. lra.
Qed.

Lemma smooth_l1_0 : smooth_l1 0 = 0.
Proof.
  unfold smooth_l1. rewrite Rabs_R0.
  assert (E : Rltb 0 1 = true) by (apply Rltb_true; lra). rewrite E. lra.
Qed.

Lemma Rsum_nonneg (l : list R) : Forall (fun v => 0 <= v) l -> 0 <= Rsum l.
Proof. induction 1; simpl; lra. Qed.

Lemma smooth_l1_loss_nonneg (input target : list (list R)) :
  0 <= smooth_l1_loss input target.
Proof.
  unfold smooth_l1_loss. apply Rsum_nonneg, Forall_forall.
  intros v Hv. apply in_map_iff in Hv. destruct Hv as ([a b] & <- & _).
  apply smooth_l1_nonneg.
Qed.

Lemma nll_nonneg (logits : list R) (t : nat) :
  (t < length logits)%nat -> 0 <= nll logits t.
Proof.
  intros Ht. unfold nll.
  pose proof (exp_le_Rsum_exp logits t Ht) as Hle.
  pose proof (exp_pos (nth t logits 0)) as Hp.
  destruct Hle as [Hlt|Heq].
  - apply ln_increasing in Hlt; [|exact Hp]. rewrite ln_exp in Hlt. lra.
  - rewrite <- Heq, ln_exp. lra.
Qed.

Lemma mapM_Forall {A B : Type} (f : A -> option B) (P : B -> Prop) (l : list A)
    (bs : list B) :
  (forall a b, In a l -> f a = Some b -> P b) -> mapM f l = Some bs -> Forall P bs.
Proof.
  revert bs; induction l as [|a l IH]; intros bs Hf H; simpl in H.
  - injection H as <-. constructor.
  - destruct (f a) as [b|] eqn:Ea; [|discriminate]. simpl in H.
    destruct (mapM f l) as [bs'|] eqn:El; [|discriminate]. simpl in H.
    injection H as <-. constructor.
    + apply (Hf a); [left; reflexivity | exact Ea].
    + apply IH; [|reflexivity]. intros a' b' Hin. apply Hf. right; exact Hin.
Qed.

Lemma ce_elem_nonneg (ignore_index : Z) (logits : list R) (t : Z) (v w : R) :
  ce_elem ignore_index logits t = Some (v, w) -> 0 <= v /\ 0 <= w.
Proof.
  unfold ce_elem. destruct (t =? ignore_index)%Z.
  - intros [= <- <-]. lra.
  - destruct ((0 <=? t) && (t <? Z.of_nat (length logits)))%Z eqn:E; [|discriminate].
    intros [= <- <-]. apply andb_true_iff in E. destruct E as [E0 E1].
    apply Z.leb_le in E0. apply Z.ltb_lt in E1.
    split; [apply nll_nonneg; lia | lra].
Qed.

(** The mean cross-entropy is never negative. *)
Lemma CrossEntropyLoss_nonneg (ignore_index : Z) (input : tensor3 R) (target : tensor2 Z)
    (c : R) :
  CrossEntropyLoss ignore_index input target = Some c -> 0 <= c.
Proof.
  unfold CrossEntropyLoss.
  destruct (mapM _ (combine input target)) as [elems|] eqn:E; [|discriminate].
  simpl. intros [= <-].
  assert (Hall : Forall (Forall (fun vw : R * R => 0 <= fst vw /\ 0 <= snd vw)) elems).
  { refine (mapM_Forall _ _ _ _ _ E). intros [x tg] es _ H.
    unfold ce_sample in H.
    refine (mapM_Forall _ _ _ _ _ H). intros [a t] [v w] _ H'.
    apply (ce_elem_nonneg _ _ _ _ _ H'). }
  assert (Hc : Forall (fun vw : R * R => 0 <= fst vw /\ 0 <= snd vw) (concat elems))
    by (apply Forall_concat, Hall).
  assert (H1 : 0 <= Rsum (map fst (concat elems))).
  { apply Rsum_nonneg, Forall_forall. intros v Hv. apply in_map_iff in Hv.
    destruct Hv as (vw & <- & Hin). rewrite Forall_forall in Hc. apply (Hc vw Hin). }
  assert (H2 : 0 <= Rsum (map snd (concat elems))).
  { apply Rsum_nonneg, Forall_forall. intros v Hv. apply in_map_iff in Hv.
    destruct Hv as (vw & <- & Hin). rewrite Forall_forall in Hc. apply (Hc vw Hin). }
  destruct H2 as [H2|H2].
  - apply Rmult_le_pos; [exact H1|]. left. apply Rinv_0_lt_compat, H2.
  - rewrite <- H2, Rdiv_0_r. lra.
Qed.

Lemma selected_count_nonneg (S : sorter) (c : R) (label : tensor2 Z) (k : Z) :
  (0 <= Zsum (map (fun labels => count_true (selected_row S c k labels)) label))%Z.
Proof.
  induction label as [|labels label IH]; simpl; [lia|].
  pose proof (count_true_range (selected_row S c k labels)). lia.
Qed.

Lemma normalizer_pos (label : tensor2 Z) : 0 < IZR (count_positive label) + 1 / 1000.
Proof. pose proof (IZR_le _ _ (count_positive_nonneg label)). lra. Qed.

(** X1: [forward] never returns a negative loss: whenever it returns, for
    any predictions, targets, labels, tie order of the sort and [k], both the
    localization loss and the classification loss are at least 0. *)
Theorem forward_nonneg (S : sorter) (xloc xconf loc : tensor3 R) (label : tensor2 Z) (k : Z) :
  match forward S xloc xconf loc label k with
  | Some (l, c) => 0 <= l /\ 0 <= c
  | None => True
  end.
Proof.
  rewrite forward_normalized. unfold loc_loss_sum, conf_loss_sum.
  destruct (view4 (masked_select xloc _)) as [input|]; [|exact I].
  destruct (view4 (masked_select loc _)) as [target|]; [|exact I].
  cbn [bind].
  destruct (CrossEntropyLoss _ _ _) as [c|] eqn:E; [|exact I]. cbn [bind].
  pose proof (normalizer_pos label) as HN.
  apply CrossEntropyLoss_nonneg in E.
  split.
  - apply Rmult_le_pos; [apply smooth_l1_loss_nonneg | left; apply Rinv_0_lt_compat, HN].
  - apply Rmult_le_pos; [|left; apply Rinv_0_lt_compat, HN].
    rewrite conf_sum_is_mean_times_count.
    apply Rmult_le_pos; [exact E|]. apply IZR_le, selected_count_nonneg.
Qed.


(** ** A batch without positive anchors *)

Lemma count_true_0 (row : list bool) :
  count_true row = 0%Z -> Forall (fun b => b = false) row.
Proof.
  induction row as [|b row IH]; intros H; constructor.
  - change (count_true (b :: row)) with (b2z b + count_true row)%Z in H.
    pose proof (count_true_range row). destruct b; simpl b2z in H; [lia | reflexivity].
  - apply IH.
    change (count_true (b :: row)) with (b2z b + count_true row)%Z in H.
    pose proof (count_true_range row). destruct b; simpl b2z in H; lia.
Qed.

Lemma count_positive_0 (label : tensor2 Z) :
  count_positive label = 0%Z ->
  Forall (fun labels => count_true (map (fun v => (0 <? v)%Z) labels) = 0%Z) label.
Proof.
  unfold count_positive, gt0. rewrite map_map.
  induction label as [|labels label IH]; intros H; constructor; simpl in H.
  - pose proof (count_true_range (map (fun v => (0 <? v)%Z) labels)).
    assert (0 <= Zsum (map (fun x => count_true (map (fun v => (0 <? v)%Z) x)) label))%Z.
    { clear. induction label as [|l label IH]; simpl; [lia|].
      pose proof (count_true_range (map (fun v => (0 <? v)%Z) l)). lia. }
    lia.
  - apply IH.
    pose proof (count_true_range (map (fun v => (0 <? v)%Z) labels)).
    assert (0 <= Zsum (map (fun x => count_true (map (fun v => (0 <? v)%Z) x)) label))%Z.
    { clear. induction label as [|l label IH]; simpl; [lia|].
      pose proof (count_true_range (map (fun v => (0 <? v)%Z) l)). lia. }
    lia.
Qed.

Lemma pick_none (v : list R) (m : list bool) :
  Forall (fun b => b = false) m -> flat_map pick (combine v m) = [].
Proof.
  intros H; revert v; induction H as [|b m Hb Hm IH]; intros [|x v]; simpl;
    try reflexivity.
  subst b. apply IH.
Qed.

Lemma expand_as_false (pos : tensor2 bool) (x : tensor3 R) :
  Forall (Forall (fun b => b = false)) pos ->
  Forall (fun b => b = false) (concat (map (@concat bool) (expand_as pos x))).
Proof.
  unfold expand_as. intros H; revert x.
  induction H as [|prow pos Hrow Hpos IH]; intros [|xs x]; simpl; try constructor.
  apply Forall_app. split; [|apply IH].
  clear - Hrow. revert xs. induction Hrow as [|p prow Hp Hrow IH]; intros [|r xs]; simpl;
    try constructor.
  apply Forall_app. split; [|apply IH].
  subst p. apply Forall_forall. intros b Hb. apply in_map_iff in Hb.
  destruct Hb as (? & <- & _). reflexivity.
Qed.

Lemma masked_select_none (pos : tensor2 bool) (x y : tensor3 R) :
  Forall (Forall (fun b => b = false)) pos -> masked_select y (expand_as pos x) = [].
Proof. intros H. unfold masked_select. apply pick_none, expand_as_false, H. Qed.

Lemma selected_row_none (S : sorter) (c : R) (k : Z) (labels : list Z) :
  count_true (map (fun v => (0 <? v)%Z) labels) = 0%Z ->
  count_true (selected_row S c k labels) = 0%Z.
Proof.
  intros H0. unfold selected_row. rewrite count_disjoint_union.
  - rewrite count_hard_neg_row, H0. lia.
  - now rewrite length_map, length_hard_neg_row.
  - intros i _. apply count_true_0 in H0.
    destruct (Nat.lt_ge_cases i (length (map (fun v => (0 <? v)%Z) labels))) as [Hi|Hi].
    + rewrite Forall_forall in H0. apply H0, nth_In, Hi.
    + apply nth_overflow, Hi.
Qed.

(** X2: on a batch in which no anchor has a label above 0, [forward]
    raises or returns [(0, 0)]: the bound on the ranks is 0, so no negative is
    kept, and both sums are empty. *)
Theorem forward_no_positive (S : sorter) (xloc xconf loc : tensor3 R)
    (label : tensor2 Z) (k : Z) :
  count_positive label = 0%Z ->
  forward S xloc xconf loc label k = None \/
  forward S xloc xconf loc label k = Some (0, 0).
Proof.
  intros H0. pose proof (count_positive_0 label H0) as Hrows.
  rewrite forward_normalized. unfold loc_loss_sum, conf_loss_sum.
  assert (Hpos : Forall (Forall (fun b => b = false)) (gt0 label)).
  { unfold gt0. apply Forall_forall. intros row Hin. apply in_map_iff in Hin.
    destruct Hin as (labels & <- & Hl). apply count_true_0.
    rewrite Forall_forall in Hrows. apply Hrows, Hl. }
  rewrite !masked_select_none by exact Hpos. cbn [view4 bind].
  destruct (CrossEntropyLoss _ _ _) as [c|]; [right | left; reflexivity].
  cbn [bind]. rewrite conf_sum_is_mean_times_count.
  assert (Hz : Zsum (map (fun labels => count_true (selected_row S c k labels)) label) = 0%Z).
  { clear - Hrows. induction Hrows as [|labels label Hl Hrows IH]; [reflexivity|].
    cbn [map Zsum fold_right]. fold (Zsum (map (fun labels => count_true (selected_row S c k labels)) label)).
    rewrite (selected_row_none S c k labels Hl), IH. reflexivity. }
  rewrite Hz. unfold smooth_l1_loss. simpl. f_equal. f_equal; field;
    pose proof (normalizer_pos label); lra.
Qed.

Lemma forward_no_positive_witness :
  forward stable [[[1; 2; 3; 4]; [0; 0; 0; 0]]] [[[2; 0]; [0; 1]]]
          [[[0; 0; 0; 0]; [5; 5; 5; 5]]] [[0; -1]%Z] 3 = None \/
  forward stable [[[1; 2; 3; 4]; [0; 0; 0; 0]]] [[[2; 0]; [0; 1]]]
          [[[0; 0; 0; 0]; [5; 5; 5; 5]]] [[0; -1]%Z] 3 = Some (0, 0).
Proof. apply forward_no_positive. reflexivity. Defined.

(** ** A perfect prediction *)

Lemma smooth_l1_loss_same (input : list (list R)) : smooth_l1_loss input input = 0.
Proof.
  unfold smooth_l1_loss. induction (concat input) as [|a l IH]; simpl; [reflexivity|].
  rewrite IH, Rminus_diag, smooth_l1_0. lra.
Qed.

(** X6: when the predicted offsets are the targets ([xloc] passed as
    [loc]), the localization loss [forward] returns is 0. *)
Theorem forward_perfect_location (S : sorter) (xloc xconf : tensor3 R)
    (label : tensor2 Z) (k : Z) :
  match forward S xloc xconf xloc label k with
  | Some (l, _) => l = 0
  | None => True
  end.
Proof.
  rewrite forward_normalized. unfold loc_loss_sum.
  destruct (view4 (masked_select xloc _)) as [input|]; [|exact I]. cbn [bind].
  destruct (conf_loss_sum S xconf label k) as [c|]; [|exact I]. cbn [bind].
  rewrite smooth_l1_loss_same. unfold Rdiv. ring.
Qed.


(** ** When [forward] raises *)

Lemma mapM_cons_None {A B : Type} (f : A -> option B) (a : A) (l : list A) :
  mapM f (a :: l) = None <-> f a = None \/ mapM f l = None.
Proof.
  simpl. destruct (f a); simpl; [|tauto].
  destruct (mapM f l); simpl; split; intros H; try discriminate; try tauto;
    destruct H; discriminate.
Qed.

Lemma length_transpose {T : Type} (C : nat) (m : list (list T)) :
  m <> [] -> Forall (fun row => length row = C) m -> length (transpose m) = C.
Proof.
  intros Hne H. induction H as [|row m Hrow Hm IH]; [congruence|].
  simpl. destruct m as [|row' m'].
  - now rewrite length_map.
  - rewrite length_map2, IH by discriminate. lia.
Qed.

Lemma ce_elem_None (logits : list R) (l : Z) :
  ce_elem (-1) logits (Z.max 0 l) = None <-> (Z.of_nat (length logits) <= Z.max 0 l)%Z.
Proof.
  unfold ce_elem. destruct (Z.eqb_spec (Z.max 0 l) (-1)); [lia|].
  destruct (Z.leb_spec 0 (Z.max 0 l)); [|lia].
  destruct (Z.ltb_spec (Z.max 0 l) (Z.of_nat (length logits))); simpl; split;
    intros Hn; try discriminate; try lia; reflexivity.
Qed.

Lemma ce_row_None (C : nat) (x : list (list R)) (labels : list Z) (s : nat) :
  length x = C ->
  mapM (fun '(a, t) => ce_elem (-1) (map (fun row => nth a row 0) x) t)
       (combine (seq s (length (map (Z.max 0) labels))) (map (Z.max 0) labels)) = None
  <-> Exists (fun l => (Z.of_nat C <= Z.max 0 l)%Z) labels.
Proof.
  intros Hx. revert s; induction labels as [|l labels IH]; intros s.
  - simpl. split; [discriminate | intros H; inversion H].
  - cbn [map length seq combine]. rewrite mapM_cons_None, IH, Exists_cons.
    rewrite ce_elem_None, length_map, Hx. tauto.
Qed.

Lemma ce_sample_None (A C : nat) (xs : list (list R)) (labels : list Z) :
  shape2 A C xs -> length labels = A ->
  ce_sample (-1) (transpose xs) (map (Z.max 0) labels) = None
  <-> Exists (fun l => (Z.of_nat C <= Z.max 0 l)%Z) labels.
Proof.
  intros [Hl Hr] Hlab. destruct labels as [|l labels].
  - simpl. split; [discriminate | intros H; inversion H].
  - unfold ce_sample. apply ce_row_None.
    apply length_transpose; [|exact Hr]. destruct xs; [simpl in *; lia | discriminate].
Qed.

Lemma CrossEntropyLoss_None (B A C : nat) (xconf : tensor3 R) (label : tensor2 Z) :
  shape2 B A label -> shape3 B A C xconf ->
  CrossEntropyLoss (-1) (transpose12 xconf) (clamp_min0 label) = None
  <-> Exists (Exists (fun l => (Z.of_nat C <= Z.max 0 l)%Z)) label.
Proof.
  intros [Hlb Hlr] [Hxb Hxr]. unfold CrossEntropyLoss, transpose12, clamp_min0.
  assert (Hm : mapM (fun '(x, t) => ce_sample (-1) x t)
                 (combine (map transpose xconf) (map (map (Z.max 0)) label)) = None
               <-> Exists (Exists (fun l => (Z.of_nat C <= Z.max 0 l)%Z)) label).
  { assert (Hlen : length label = length xconf) by congruence. clear Hlb Hxb.
    revert xconf Hxr Hlen. induction Hlr as [|labels label Hrow Hlr IH];
      intros [|xs xconf] Hxr Hlen; simpl in Hlen; try lia.
    - simpl. split; [discriminate | intros H; inversion H].
    - cbn [map combine]. rewrite mapM_cons_None, Exists_cons.
      inversion Hxr; subst.
      rewrite (ce_sample_None (length labels) C) by (assumption || reflexivity).
      rewrite IH by (assumption || lia). tauto. }
  destruct (mapM _ _) as [elems|]; simpl.
  - split; [discriminate|]. intros H. apply Hm in H. discriminate.
  - split; [intros _; apply Hm; reflexivity | reflexivity].
Qed.

(** X3: on a batch of [B] samples with [A] anchors and [C] classes,
    [forward] raises exactly when some label, after [clamp(min=0)], is not
    below [C], that is, is not a class index of [xconf]; a label below 0
    counts as class 0. *)
Theorem forward_raises_iff (S : sorter) (xloc xconf loc : tensor3 R)
    (label : tensor2 Z) (k : Z) (B A C : nat) :
  shape2 B A label -> shape3 B A 4 xloc -> shape3 B A 4 loc -> shape3 B A C xconf ->
  (forward S xloc xconf loc label k = None
   <-> Exists (Exists (fun l => (Z.of_nat C <= Z.max 0 l)%Z)) label).
Proof.
  intros Hl Hx Hy Hc.
  rewrite <- (CrossEntropyLoss_None B A C xconf label Hl Hc).
  rewrite forward_normalized, (loc_loss_sum_eq xloc loc label B A Hl Hx Hy).
  unfold conf_loss_sum. cbn [bind].
  destruct (CrossEntropyLoss _ _ _); simpl; split; intros H; try discriminate; reflexivity.
Qed.

Lemma forward_raises_iff_witness :
  forward stable [[[1; 2; 3; 4]; [0; 0; 0; 0]]] [[[2; 0]; [0; 1]]]
          [[[0; 0; 0; 0]; [5; 5; 5; 5]]] [[2; 0]%Z] 3 = None
  <-> Exists (Exists (fun l => (Z.of_nat 2 <= Z.max 0 l)%Z)) [[2; 0]%Z].
Proof.
  apply (forward_raises_iff stable _ _ _ _ 3 1 2 2);
    (split; [reflexivity | repeat constructor]).
Defined.


(** ** The classification loss in closed form *)

Lemma selected_total (S : sorter) (c : R) (k : Z) (label : tensor2 Z) :
  0 < c -> (0 <= k)%Z ->
  Forall (fun labels =>
            (count_true (map (fun v => (0 <? v)%Z) labels) * k
             <= count_true (map (fun v => (v =? 0)%Z) labels))%Z) label ->
  Zsum (map (fun labels => count_true (selected_row S c k labels)) label)
  = ((1 + k) * count_positive label)%Z.
Proof.
  intros Hc Hk Hall. unfold count_positive, gt0. rewrite map_map.
  induction Hall as [|labels label Hl Hall IH]; [simpl; lia|].
  cbn [map Zsum fold_right].
  fold (Zsum (map (fun labels => count_true (selected_row S c k labels)) label)).
  fold (Zsum (map (fun x => count_true (map (fun v => (0 <? v)%Z) x)) label)).
  rewrite IH, (count_selected_row S c k labels Hc Hk Hl). lia.
Qed.

(** X4: when the batch mean [c] of the cross-entropy is positive, [k] is
    not negative and every sample has at least [k] negatives for each of its
    positives, the classification loss [forward] returns is
    [c * (1 + k) * P / (P + 1e-3)], where [P] is the number of positive anchors of
    the batch: it does not depend on which negatives are kept. *)
Theorem conf_loss_closed_form (S : sorter) (xloc xconf loc : tensor3 R)
    (label : tensor2 Z) (k : Z) (c : R) :
  CrossEntropyLoss (-1) (transpose12 xconf) (clamp_min0 label) = Some c ->
  0 < c -> (0 <= k)%Z ->
  Forall (fun labels =>
            (count_true (map (fun v => (0 <? v)%Z) labels) * k
             <= count_true (map (fun v => (v =? 0)%Z) labels))%Z) label ->
  let P := IZR (count_positive label) in
  forward S xloc xconf loc label k
  = (l <- loc_loss_sum xloc loc label ;;
     Some (l / (P + 1 / 1000), c * ((1 + IZR k) * P) / (P + 1 / 1000))).
Proof.
  intros Hce Hc Hk Hall P.
  rewrite forward_normalized. unfold conf_loss_sum. rewrite Hce. cbn [bind].
  rewrite conf_sum_is_mean_times_count, (selected_total S c k label Hc Hk Hall).
  rewrite mult_IZR, plus_IZR. reflexivity.
Qed.


Import Batches.

Lemma conf_loss_closed_form_witness :
  let P := IZR (count_positive label_a) in
  forward stable (zeros 5) xconf_a (zeros 5) label_a 3
  = (l <- loc_loss_sum (zeros 5) (zeros 5) label_a ;;
     Some (l / (P + 1 / 1000), (lse10 - 4 / 5) * ((1 + IZR 3) * P) / (P + 1 / 1000))).
Proof.
  apply (conf_loss_closed_form stable _ _ _ _ 3 (lse10 - 4 / 5)).
  - exact ce_a.
  - pose proof lse10_gt_1. lra.
  - lia.
  - constructor; [vm_compute; discriminate | constructor].
Defined.

(** ** Which anchors [_hard_negative_mining] marks *)

(** The key of an anchor: minus its loss for a negative, zero otherwise. *)
Lemma key_at (loss : loss_tensor) (label : tensor2 Z) (B A b a : nat) :
  shape2 B A label -> loss_shape loss B A -> (b < B)%nat -> (a < A)%nat ->
  nth a (nth b (bmul loss (map (map (fun n => -1 * b2r n)) (eq0 label))) []) 0
  = loss_at loss b a * (-1 * b2r (nth a (nth b label []) 1 =? 0)%Z).
Proof.
  intros Hl Hloss Hb Ha.
  assert (HB : length label = B) by apply Hl.
  pose proof (shape2_row B A label b Hl Hb) as Hrow.
  assert (Hinner : nth a (nth b (map (map (fun n => -1 * b2r n)) (eq0 label)) []) 0
                   = -1 * b2r (nth a (nth b label []) 1 =? 0)%Z).
  { unfold eq0. rewrite map_map.
    rewrite (nth_map_lt _ _ b [] []) by lia.
    rewrite (nth_map_lt _ _ a false 0) by (rewrite length_map; lia).
    rewrite (nth_map_lt _ _ a 1%Z false) by lia. reflexivity. }
  destruct loss as [c|m]; simpl.
  - rewrite (nth_map_lt _ _ b [] []) by (unfold eq0; rewrite !length_map; lia).
    rewrite (nth_map_lt _ _ a 0 0).
    + rewrite Hinner. reflexivity.
    + unfold eq0. rewrite map_map. rewrite (nth_map_lt _ _ b [] []) by lia.
      rewrite !length_map. lia.
  - assert (Hneg : shape2 B A (map (map (fun n => -1 * b2r n)) (eq0 label)))
      by (apply shape2_map, shape2_map, Hl).
    rewrite (nth_map2 _ _ _ b [] [] []);
      [| destruct Hloss; lia | unfold eq0; rewrite !length_map; lia].
    rewrite (nth_map2 _ _ _ a 0 0 0);
      [| rewrite (shape2_row B A m b Hloss Hb); lia
       | rewrite (shape2_row B A _ b Hneg Hb); lia].
    rewrite Hinner. reflexivity.
Qed.

Lemma mask_at (S : sorter) (loss : loss_tensor) (label : tensor2 Z) (k : Z)
    (B A b a : nat) :
  shape2 B A label -> loss_shape loss B A -> (b < B)%nat -> (a < A)%nat ->
  let keys := nth b (bmul loss (map (map (fun n => -1 * b2r n)) (eq0 label))) [] in
  nth a (nth b (_hard_negative_mining S loss (gt0 label) (eq0 label) k) []) false
  = (Z.of_nat (nth a (rank_of S keys) 0%nat) <? count_true (nth b (gt0 label) []) * k)%Z.
Proof.
  intros Hl Hloss Hb Ha keys. unfold keys.
  assert (Hneg : shape2 B A (map (map (fun n => -1 * b2r n)) (eq0 label)))
    by (apply shape2_map, shape2_map, Hl).
  destruct (keys_row loss B A _ b Hneg Hloss Hb) as [Hkb Hka].
  assert (HB : length label = B) by apply Hl.
  rewrite hnm_row by (assumption || (unfold gt0; rewrite length_map; lia)).
  rewrite (nth_map_lt _ _ a 0%nat false) by (rewrite length_rank; lia).
  reflexivity.
Qed.

(** X7: [_hard_negative_mining] keeps the hardest negatives: within a
    sample, of two negative anchors, one marked by the mask and one not, the
    marked one has a loss at least as large as the other. *)
Theorem retained_negative_has_larger_loss (S : sorter) (loss : loss_tensor)
    (label : tensor2 Z) (k : Z) (B A b a a' : nat) :
  shape2 B A label -> loss_shape loss B A -> (b < B)%nat -> (a < A)%nat -> (a' < A)%nat ->
  let mask := nth b (_hard_negative_mining S loss (gt0 label) (eq0 label) k) [] in
  nth a (nth b label []) 1%Z = 0%Z -> nth a' (nth b label []) 1%Z = 0%Z ->
  nth a mask false = true -> nth a' mask false = false ->
  loss_at loss b a' <= loss_at loss b a.
Proof.
  intros Hl Hloss Hb Ha Ha' mask Hna Hna' Hma Hma'. unfold mask in *.
  rewrite (mask_at S loss label k B A b a) in Hma by assumption.
  rewrite (mask_at S loss label k B A b a') in Hma' by assumption.
  apply Z.ltb_lt in Hma. apply Z.ltb_ge in Hma'.
  destruct (Rle_lt_dec (loss_at loss b a') (loss_at loss b a)) as [Hle|Hlt];
    [exact Hle | exfalso].
  assert (Hneg : shape2 B A (map (map (fun n => -1 * b2r n)) (eq0 label)))
    by (apply shape2_map, shape2_map, Hl).
  destruct (keys_row loss B A _ b Hneg Hloss Hb) as [Hkb Hka].
  set (keys := nth b (bmul loss (map (map (fun n => -1 * b2r n)) (eq0 label))) []) in *.
  assert (Hr : (nth a' (rank_of S keys) 0 < nth a (rank_of S keys) 0)%nat).
  { apply rank_lt; try lia. unfold keys.
    rewrite (key_at loss label B A b a'), (key_at loss label B A b a) by assumption.
    rewrite Hna, Hna'. simpl. lra. }
  lia.
Qed.


(** Evaluation of the stable sort on explicit keys. *)
Ltac eval_Rleb :=
  repeat match goal with
         | |- context [Rleb ?a ?b] =>
             let E := fresh "E" in
             first [ assert (E : Rleb a b = true) by (apply Rleb_true; lra)
                   | assert (E : Rleb a b = false) by (apply Rleb_false; lra) ];
             rewrite E; clear E; cbn -[Rleb Rmult Rplus Ropp IZR]
         end.

Lemma stable_mask_example :
  _hard_negative_mining stable (PerAnchor [[1; 2; 3]]) (gt0 [[1; 0; 0]%Z])
                        (eq0 [[1; 0; 0]%Z]) 1
  = [[false; false; true]].
Proof.
  unfold _hard_negative_mining, rank_of, stable, argsort, sort_pairs.
  cbn -[Rleb Rmult IZR].
  eval_Rleb. reflexivity.
Qed.

Lemma retained_negative_has_larger_loss_witness :
  loss_at (PerAnchor [[1; 2; 3]]) 0 1 <= loss_at (PerAnchor [[1; 2; 3]]) 0 2.
Proof.
  apply (retained_negative_has_larger_loss stable (PerAnchor [[1; 2; 3]]) [[1; 0; 0]%Z]
           1 1 3 0 2 1); try lia; try reflexivity;
    try (split; [reflexivity | repeat constructor]);
    rewrite stable_mask_example; reflexivity.
Defined.


(** X8: when the loss of every negative anchor of a sample is positive
    and the sample has at least [k] negatives for each positive, every anchor
    that [_hard_negative_mining] marks in the sample is a negative (label 0);
    no positive and no ignored anchor is marked. *)
Theorem hard_negatives_are_negatives (S : sorter) (loss : loss_tensor)
    (label : tensor2 Z) (k : Z) (B A b a : nat) :
  shape2 B A label -> loss_shape loss B A -> (b < B)%nat -> (a < A)%nat ->
  (forall j, (j < A)%nat -> nth j (nth b label []) 1%Z = 0%Z -> 0 < loss_at loss b j) ->
  (count_true (nth b (gt0 label) []) * k <= count_true (nth b (eq0 label) []))%Z ->
  nth a (nth b (_hard_negative_mining S loss (gt0 label) (eq0 label) k) []) false = true ->
  nth a (nth b label []) 1%Z = 0%Z.
Proof.
  intros Hl Hloss Hb Ha Hpos Hmany Hma.
  destruct (Z.eq_dec (nth a (nth b label []) 1%Z) 0) as [Hz|Hnz]; [exact Hz | exfalso].
  assert (HB : length label = B) by apply Hl.
  pose proof (shape2_row B A label b Hl Hb) as Hrow.
  assert (Hneg : shape2 B A (map (map (fun n => -1 * b2r n)) (eq0 label)))
    by (apply shape2_map, shape2_map, Hl).
  destruct (keys_row loss B A _ b Hneg Hloss Hb) as [Hkb Hka].
  assert (Hnegrow : nth b (eq0 label) [] = map (fun v => (v =? 0)%Z) (nth b label []))
    by (unfold eq0; apply nth_map_lt; lia).
  pose proof (hnm_row S loss (gt0 label) (eq0 label) k b Hkb
                ltac:(unfold gt0; rewrite length_map; lia)) as Hmask.
  set (keys := nth b (bmul loss (map (map (fun n => -1 * b2r n)) (eq0 label))) []) in *.
  assert (Hra : (Z.of_nat (nth a (rank_of S keys) 0%nat)
                 < count_true (nth b (gt0 label) []) * k)%Z).
  { pose proof Hma as Hma'.
    rewrite (mask_at S loss label k B A b a) in Hma' by assumption.
    apply Z.ltb_lt in Hma'. exact Hma'. }
  assert (Hlt : (count_true (nth b (eq0 label) [])
                 < count_true (nth b (_hard_negative_mining S loss (gt0 label)
                                        (eq0 label) k) []))%Z).
  { apply (count_lt_of_subset _ _ a).
    - rewrite Hmask, Hnegrow, !length_map, length_rank. now rewrite Hrow, Hka.
    - intros j Hj.
      assert (HjA : (j < A)%nat).
      { destruct (Nat.lt_ge_cases j A) as [H|H]; [exact H|].
        rewrite nth_overflow in Hj by (rewrite Hnegrow, length_map; lia). discriminate. }
      assert (Hjz : nth j (nth b label []) 1%Z = 0%Z).
      { rewrite Hnegrow, (nth_map_lt _ _ j 1%Z false) in Hj by lia.
        apply Z.eqb_eq, Hj. }
      rewrite (mask_at S loss label k B A b j) by assumption. fold keys.
      apply Z.ltb_lt.
      assert ((nth j (rank_of S keys) 0 < nth a (rank_of S keys) 0)%nat); [|lia].
      apply rank_lt; try (rewrite Hka; lia). unfold keys.
      rewrite (key_at loss label B A b j), (key_at loss label B A b a) by assumption.
      rewrite Hjz. apply Z.eqb_neq in Hnz. rewrite Hnz. simpl.
      pose proof (Hpos j HjA Hjz). lra.
    - exact Hma.
    - rewrite Hnegrow, (nth_map_lt _ _ a 1%Z false) by lia. apply Z.eqb_neq, Hnz. }
  rewrite Hmask, (count_below_perm _ _ _ (rank_perm S keys)) in Hlt.
  rewrite Hka in Hlt. lia.
Qed.

Lemma hard_negatives_are_negatives_witness :
  nth 2 (nth 0 [[1; 0; 0]%Z] []) 1%Z = 0%Z.
Proof.
  apply (hard_negatives_are_negatives stable (PerAnchor [[1; 2; 3]]) [[1; 0; 0]%Z]
           1 1 3 0 2); try lia;
    try (split; [reflexivity | repeat constructor]).
  - intros [|[|[|j]]] Hj _; simpl; try lia; lra.
  - vm_compute. discriminate.
  - rewrite stable_mask_example. reflexivity.
Defined.


(** ** A bound on the classification loss *)

Lemma count_union_le (p h : list bool) :
  (count_true (map (fun v => (0 <? v)%Z) (map2 (fun a b => (b2z a + b2z b)%Z) p h))
   <= count_true p + count_true h)%Z.
Proof.
  revert h; induction p as [|x p IH]; intros [|y h].
  - unfold count_true; simpl; lia.
  - pose proof (count_true_range (y :: h)). unfold count_true at 1 2. simpl. lia.
  - pose proof (count_true_range (x :: p)). unfold count_true at 1 3. simpl. lia.
  - cbn [map2 map].
    change (count_true (x :: p)) with (b2z x + count_true p)%Z.
    change (count_true (y :: h)) with (b2z y + count_true h)%Z.
    change (count_true ((0 <? b2z x + b2z y)%Z
                        :: map (fun v => (0 <? v)%Z)
                             (map2 (fun a b => (b2z a + b2z b)%Z) p h)))
      with (b2z (0 <? b2z x + b2z y)%Z
            + count_true (map (fun v => (0 <? v)%Z)
                            (map2 (fun a b => (b2z a + b2z b)%Z) p h)))%Z.
    specialize (IH h).
    assert (Hxy : (b2z (0 <? b2z x + b2z y)%Z <= b2z x + b2z y)%Z)
      by (destruct x, y; simpl; lia).
    lia.
Qed.

Lemma selected_total_le (S : sorter) (c : R) (k : Z) (label : tensor2 Z) :
  (0 <= k)%Z ->
  (Zsum (map (fun labels => count_true (selected_row S c k labels)) label)
   <= (1 + k) * count_positive label)%Z.
Proof.
  intros Hk. unfold count_positive, gt0. rewrite map_map.
  induction label as [|labels label IH]; [simpl; lia|].
  cbn [map Zsum fold_right].
  fold (Zsum (map (fun labels => count_true (selected_row S c k labels)) label)).
  fold (Zsum (map (fun x => count_true (map (fun v => (0 <? v)%Z) x)) label)).
  pose proof (count_union_le (map (fun v => (0 <? v)%Z) labels)
                             (hard_neg_row S c k labels)) as Hu.
  fold (selected_row S c k labels) in Hu.
  rewrite count_hard_neg_row in Hu.
  pose proof (count_true_range (map (fun v => (0 <? v)%Z) labels)). nia.
Qed.

(** X5: for [k >= 0], the classification loss [forward] returns is at
    most [(1 + k)] times the batch mean of the cross-entropy, whatever the
    labels are. *)
Theorem conf_loss_bound (S : sorter) (xloc xconf loc : tensor3 R)
    (label : tensor2 Z) (k : Z) :
  (0 <= k)%Z ->
  match forward S xloc xconf loc label k,
        CrossEntropyLoss (-1) (transpose12 xconf) (clamp_min0 label) with
  | Some (_, conf), Some c => conf <= (1 + IZR k) * c
  | _, _ => True
  end.
Proof.
  intros Hk. rewrite forward_normalized. unfold loc_loss_sum, conf_loss_sum.
  destruct (view4 (masked_select xloc _)) as [input|]; [|exact I].
  destruct (view4 (masked_select loc _)) as [target|]; [|exact I].
  cbn [bind].
  destruct (CrossEntropyLoss _ _ _) as [c|] eqn:E; [|exact I]. cbn [bind].
  apply CrossEntropyLoss_nonneg in E.
  rewrite conf_sum_is_mean_times_count.
  pose proof (selected_total_le S c k label Hk) as Hle. apply IZR_le in Hle.
  rewrite mult_IZR, plus_IZR in Hle.
  pose proof (IZR_le _ _ (count_positive_nonneg label)) as HP.
  pose proof (IZR_le _ _ Hk) as HK.
  set (n := IZR (Zsum (map (fun labels => count_true (selected_row S c k labels)) label)))
    in *.
  set (P := IZR (count_positive label)) in *.
  apply (Rmult_le_reg_r (P + 1 / 1000)); [lra|].
  unfold Rdiv. rewrite Rmult_assoc, Rinv_l by lra. nra.
Qed.

Lemma conf_loss_bound_witness :
  match forward stable (zeros 5) xconf_a (zeros 5) label_a 3,
        CrossEntropyLoss (-1) (transpose12 xconf_a) (clamp_min0 label_a) with
  | Some (_, conf), Some c => conf <= (1 + IZR 3) * c
  | _, _ => True
  end.
Proof. apply conf_loss_bound. lia. Defined.

(** ** Without a budget *)

(** X20: with [k] zero or negative [_hard_negative_mining] marks no
    anchor: the mask is false everywhere, whatever the losses are. *)
Theorem no_hard_negative_without_budget (S : sorter) (loss : loss_tensor)
    (label : tensor2 Z) (k : Z) (B A b a : nat) :
  shape2 B A label -> loss_shape loss B A -> (b < B)%nat -> (a < A)%nat ->
  (k <= 0)%Z ->
  nth a (nth b (_hard_negative_mining S loss (gt0 label) (eq0 label) k) []) false = false.
Proof.
  intros Hl Hloss Hb Ha Hk.
  rewrite (mask_at S loss label k B A b a Hl Hloss Hb Ha).
  apply Z.ltb_ge.
  pose proof (count_true_range (nth b (gt0 label) [])) as [Hc _].
  nia.
Qed.

Lemma no_hard_negative_without_budget_witness :
  nth 1 (nth 0 (_hard_negative_mining stable (PerAnchor [[1; 2; 3]]) (gt0 [[1; 0; 0]%Z])
                  (eq0 [[1; 0; 0]%Z]) 0) []) false = false.
Proof.
  apply (no_hard_negative_without_budget stable (PerAnchor [[1; 2; 3]]) [[1; 0; 0]%Z]
           0 1 3 0 1); try lia;
    try (split; [reflexivity | repeat constructor]).
Defined.

End MultiBoxLossMore.

Module VOCDatasetMore.
Import VOCDataset VOCDatasetFacts VOCDatasetExt.

(** ** When [filter] raises *)

Lemma image_hw_None (shape : list nat) :
  image_hw shape = None <->
  (length shape < 2)%nat \/
  (4 <= length shape)%nat /\ (nth 0 shape 0 <= nth 2 shape 0)%nat.
Proof.
  destruct shape as [|s0 [|s1 [|s2 [|s3 rest]]]]; simpl.
  - split; [intros _; left; lia | reflexivity].
  - split; [intros _; left; lia | reflexivity].
  - split; [discriminate | intros [H|[H _]]; lia].
  - destruct (Nat.ltb_spec s2 s0) as [Hlt|Hge]; split; try discriminate;
      intros [H|[H _]]; lia.
  - destruct (Nat.ltb_spec s2 s0) as [Hlt|Hge]; split; try discriminate;
      try reflexivity.
    + intros [H|[_ H]]; lia.
    + intros _. right. lia.
Qed.

Lemma filter_loop_returns (h w : nat) (boxes : list box) (labels : list Z) :
  exists bs ls, filter_loop h w boxes (combine boxes labels) [] [] = Some (bs, ls).
Proof.
  destruct boxes as [|b0 boxes].
  - exists [], []. reflexivity.
  - destruct (np_max_nonempty b0 boxes) as [m Hm].
    rewrite (filter_loop_keep h w _ m _ [] [] Hm). eauto.
Qed.

(** X9: [filter] raises exactly when the shape of the image has fewer
    than two entries, or has four or more and its first entry is not above
    its third (the CHW branch then unpacks three or more values into [h, w]);
    the boxes and labels never make it raise. *)
Theorem filter_raises_iff (shape : list nat) (boxes : list box) (labels : list Z) :
  filter shape boxes labels = None <->
  (length shape < 2)%nat \/
  (4 <= length shape)%nat /\ (nth 0 shape 0 <= nth 2 shape 0)%nat.
Proof.
  rewrite <- image_hw_None. unfold filter.
  destruct (image_hw shape) as [[h w]|]; [|tauto].
  destruct (filter_loop_returns h w boxes labels) as (bs & ls & H). rewrite H.
  split; discriminate.
Qed.

(** ** Filtering twice *)

Lemma filter_all_true {T : Type} (f : T -> bool) (l : list T) :
  (forall x, In x l -> f x = true) -> List.filter f l = l.
Proof.
  induction l as [|a l IH]; intros H; simpl; [reflexivity|].
  rewrite (H a (or_introl eq_refl)), IH; [reflexivity|].
  intros x Hx. apply H. right; exact Hx.
Qed.

Lemma normalized_incl (boxes bs : list box) :
  (forall b, In b bs -> In b boxes) -> normalized boxes -> normalized bs.
Proof.
  unfold normalized. rewrite !Forall_forall. auto.
Qed.

Lemma filter_by (shape : list nat) (h w : nat) (boxes : list box) (labels : list Z) :
  image_hw shape = Some (h, w) ->
  filter shape boxes labels
  = Some (unzip (List.filter
                   (fun it => positive_size (fst it) &&
                              negb (match np_max boxes with
                                    | Some m => Rltb m 1
                                    | None => false
                                    end && small h w (fst it)))
                   (combine boxes labels))).
Proof.
  intros Hs. destruct boxes as [|b0 boxes].
  - apply (filter_no_box shape h w labels Hs).
  - destruct (np_max_nonempty b0 boxes) as [m Hm].
    rewrite (filter_keep shape h w _ labels m Hs Hm), Hm. reflexivity.
Qed.

Lemma np_max_normalized (boxes : list box) :
  match np_max boxes with Some m => Rltb m 1 | None => false end = true ->
  normalized boxes.
Proof.
  destruct (np_max boxes) as [m|] eqn:Hm; [|discriminate].
  intros H. apply (np_max_lt_1 boxes m Hm), Rltb_true, H.
Qed.

Lemma filter_fixed {T : Type} (f : T -> bool) (l : list T) :
  List.filter f l = l -> forall x, In x l -> f x = true.
Proof.
  induction l as [|a l IH]; intros H x Hx; [destruct Hx|].
  simpl in H. destruct (f a) eqn:E.
  - injection H as H. destruct Hx as [<-|Hx]; [exact E | apply IH; assumption].
  - exfalso. pose proof (filter_length_le f l) as Hle. rewrite H in Hle. simpl in Hle. lia.
Qed.

(** X10: filtering the result of [filter] again against the same image
    returns it unchanged, except when all the coordinates that are left are
    below 1 and one of the boxes left has a pixel geometric mean below 8: the
    size test, which the first call had switched off by a coordinate of 1 or
    more in a dropped box, then removes it. *)
Theorem filter_twice (shape : list nat) (h w : nat) (boxes bs : list box)
    (labels ls : list Z) :
  image_hw shape = Some (h, w) ->
  filter shape boxes labels = Some (bs, ls) ->
  (filter shape bs ls = Some (bs, ls)
   <-> ~ (normalized bs /\ Exists (fun b => pixel_geomean h w b < 8) bs)).
Proof.
  intros Hs Hf. rewrite (filter_by shape h w boxes labels Hs) in Hf.
  injection Hf as Hbs Hls.
  set (F := List.filter _ (combine boxes labels)) in *.
  assert (Hc : combine bs ls = F) by (subst bs ls; apply combine_unzip).
  assert (HF : forall it, In it F -> positive_size (fst it) = true).
  { intros it Hit. unfold F in Hit. apply filter_In in Hit. destruct Hit as [_ Hit].
    apply andb_true_iff in Hit. tauto. }
  rewrite (filter_by shape h w bs ls Hs), Hc.
  set (nb := match np_max bs with Some m => Rltb m 1 | None => false end).
  assert (Hnb : nb = true <-> bs <> [] /\ normalized bs).
  { unfold nb. destruct bs as [|b0 bs'].
    - simpl. split; [discriminate | intros [H _]; congruence].
    - destruct (np_max_nonempty b0 bs') as [m Hm]. rewrite Hm, Rltb_true.
      rewrite (np_max_lt_1 _ m Hm). split; [intros H; split; [discriminate | exact H] | tauto]. }
  split.
  - intros H [Hn He]. injection H as H1 H2.
    assert (HFF : List.filter (fun it => positive_size (fst it) &&
                                         negb (nb && small h w (fst it))) F = F).
    { rewrite <- (combine_unzip (List.filter _ F)), H1, H2.
      rewrite <- Hbs, <- Hls. apply combine_unzip. }
    apply Exists_exists in He. destruct He as (b & Hb & Hsm).
    rewrite <- Hbs in Hb. apply in_map_iff in Hb. destruct Hb as (it & <- & Hit).
    pose proof (filter_fixed _ _ HFF it Hit) as Hp. cbv beta in Hp.
    rewrite (HF it Hit) in Hp. simpl in Hp.
    assert (Hnbt : nb = true).
    { apply Hnb. split; [|exact Hn]. intros E. rewrite E in Hbs.
      destruct F; [destruct Hit | discriminate]. }
    rewrite Hnbt in Hp. unfold small in Hp. apply Rltb_true in Hsm. rewrite Hsm in Hp.
    discriminate.
  - intros Hno. rewrite filter_all_true; [unfold unzip; now subst bs ls|].
    intros it Hit. rewrite (HF it Hit). simpl.
    destruct nb eqn:Enb; [|reflexivity]. simpl.
    destruct (small h w (fst it)) eqn:Esm; [|reflexivity]. exfalso. apply Hno.
    split; [apply Hnb; reflexivity|].
    apply Exists_exists. exists (fst it). split.
    + rewrite <- Hbs. apply in_map, Hit.
    + apply Rltb_true, Esm.
Qed.


Lemma filter_pixel_boxes_eq (shape : list nat) (h w : nat) (boxes : list box)
    (labels : list Z) :
  image_hw shape = Some (h, w) -> pixel_boxes boxes ->
  filter shape boxes labels
  = Some (unzip (List.filter (fun it => positive_size (fst it)) (combine boxes labels))).
Proof.
  intros Hs Hpx. rewrite (filter_by shape h w boxes labels Hs). do 2 f_equal.
  apply filter_ext_in. intros [b l] Hit. simpl fst.
  destruct (match np_max boxes with Some m => Rltb m 1 | None => false end) eqn:E;
    [|simpl; apply andb_true_r].
  apply np_max_normalized in E.
  assert (Hb : In b boxes) by (apply in_combine_l in Hit; exact Hit).
  unfold normalized in E. unfold pixel_boxes in Hpx. rewrite Forall_forall in E, Hpx.
  specialize (E b Hb). specialize (Hpx b Hb).
  assert (Hzero : forall c, In c (coords b) -> c = 0).
  { intros c Hc. rewrite Forall_forall in E, Hpx.
    destruct (Hpx c Hc) as (n & Hn0 & ->). specialize (E _ Hc).
    apply lt_IZR in E. assert (n = 0%Z) by lia. now subst. }
  assert (Hp : positive_size b = false).
  { apply not_true_iff_false. rewrite positive_size_spec. unfold width.
    rewrite (Hzero (x1 b)), (Hzero (x2 b)) by (simpl; tauto). lra. }
  rewrite Hp. reflexivity.
Qed.


(** X11: on boxes in pixels (every coordinate a nonnegative integer)
    [filter], for an image shape it accepts, keeps exactly the boxes of
    positive width and height, with their labels, in their order; the
    small-box test removes nothing. *)
Theorem filter_pixel_boxes (shape : list nat) (h w : nat) (boxes : list box)
    (labels : list Z) :
  image_hw shape = Some (h, w) -> pixel_boxes boxes ->
  filter shape boxes labels
  = Some (unzip (List.filter (fun it => positive_size (fst it)) (combine boxes labels))).
Proof. apply filter_pixel_boxes_eq. Qed.

Lemma pixel_boxes_example : pixel_boxes [mkBox 47 239 194 370; mkBox 7 11 7 50].
Proof.
  unfold pixel_boxes, coords. simpl.
  repeat match goal with
         | |- Forall _ [] => apply Forall_nil
         | |- Forall _ (_ :: _) => apply Forall_cons
         | |- exists n : Z, _ /\ IZR ?z = IZR n => exists z; split; [lia | reflexivity]
         | |- exists n : Z, _ /\ _ = IZR n => progress cbn [x1 y1 x2 y2]
         end.
Qed.

Lemma filter_pixel_boxes_witness :
  filter [375; 500; 3]%nat [mkBox 47 239 194 370; mkBox 7 11 7 50] [11; 14]%Z
  = Some (unzip (List.filter (fun it => positive_size (fst it))
                   (combine [mkBox 47 239 194 370; mkBox 7 11 7 50] [11; 14]%Z))).
Proof.
  apply (filter_pixel_boxes [375; 500; 3]%nat 375 500);
    [reflexivity | exact pixel_boxes_example].
Defined.

(** A box of 5 by 5 pixels in a 10 by 10 image stays. *)
Lemma filter_example :
  filter [10; 10; 3]%nat [mkBox 4 4 9 9] [5%Z] = Some ([mkBox 4 4 9 9], [5%Z]).
Proof.
  assert (Hm : np_max [mkBox 4 4 9 9] = Some (Rmax (Rmax (Rmax 4 4) 9) 9)) by reflexivity.
  rewrite (filter_keep [10; 10; 3]%nat 10 10 _ _ _ eq_refl Hm).
  assert (Hk : keep (Rmax (Rmax (Rmax 4 4) 9) 9) 10 10 (mkBox 4 4 9 9, 5%Z) = true).
  { apply keep_spec. simpl. unfold width, height. simpl. split; [lra|].
    rewrite !Rmax_lt_1. lra. }
  cbv [combine List.filter]. rewrite Hk. reflexivity.
Qed.

Lemma filter_twice_witness :
  filter [10; 10; 3]%nat [mkBox 4 4 9 9] [5%Z] = Some ([mkBox 4 4 9 9], [5%Z])
  <-> ~ (normalized [mkBox 4 4 9 9] /\
         Exists (fun b => pixel_geomean 10 10 b < 8) [mkBox 4 4 9 9]).
Proof.
  apply (filter_twice [10; 10; 3]%nat 10 10 [mkBox 4 4 9 9] _ [5%Z]);
    [reflexivity | exact filter_example].
Defined.

(** ** The outputs stay paired *)

Lemma length_filter_le {T : Type} (f : T -> bool) (l : list T) :
  (length (List.filter f l) <= length l)%nat.
Proof. induction l as [|a l IH]; simpl; [lia | destruct (f a); simpl; lia]. Qed.

(** X19: [filter] returns as many boxes as labels, no more than the
    shorter of its two inputs has, and the pairs it returns are pairs of
    [zip(boxes, labels)] in their order: a label stays with its box, and
    entries beyond the shorter input are dropped silently. *)
Theorem filter_keeps_pairs (shape : list nat) (boxes bs : list box) (labels ls : list Z) :
  filter shape boxes labels = Some (bs, ls) ->
  length bs = length ls /\
  (length bs <= Nat.min (length boxes) (length labels))%nat /\
  exists kept : box * Z -> bool,
    combine bs ls = List.filter kept (combine boxes labels).
Proof.
  intros H.
  destruct (image_hw shape) as [[h w]|] eqn:Hs;
    [| unfold filter in H; rewrite Hs in H; discriminate].
  rewrite (filter_by shape h w boxes labels Hs) in H.
  injection H as <- <-.
  split; [now rewrite !length_map|]. split.
  - rewrite length_map, <- length_combine. apply length_filter_le.
  - eexists. apply combine_unzip.
Qed.

Lemma filter_keeps_pairs_witness :
  length [mkBox 4 4 9 9] = length [5%Z] /\
  (length [mkBox 4 4 9 9] <= Nat.min (length [mkBox 4 4 9 9]) (length [5%Z]))%nat /\
  exists kept : box * Z -> bool,
    combine [mkBox 4 4 9 9] [5%Z] = List.filter kept (combine [mkBox 4 4 9 9] [5%Z]).
Proof. apply (filter_keeps_pairs [10; 10; 3]%nat). exact filter_example. Defined.

End VOCDatasetMore.

Section DictFacts.
Context {K V : Type} (eqb : K -> K -> bool).
Hypothesis eqb_eq : forall a b, eqb a b = true <-> a = b.

Lemma eqb_refl' (a : K) : eqb a a = true.
Proof. now apply eqb_eq. Qed.

Lemma eqb_neq' (a b : K) : a <> b -> eqb a b = false.
Proof. intros H. destruct (eqb a b) eqn:E; [apply eqb_eq in E; contradiction | reflexivity]. Qed.

Lemma dict_get_set (d : list (K * V)) (k k' : K) (v : V) :
  dict_get eqb (dict_set eqb d k v) k' = if eqb k' k then Some v else dict_get eqb d k'.
Proof.
  induction d as [|[k0 v0] d IH]; simpl.
  - destruct (eqb k' k); reflexivity.
  - destruct (eqb k k0) eqn:E; simpl.
    + apply eqb_eq in E. subst k0. destruct (eqb k' k); reflexivity.
    + rewrite IH. destruct (eqb k' k0) eqn:E0; [|reflexivity].
      destruct (eqb k' k) eqn:E1; [|reflexivity].
      apply eqb_eq in E0, E1. subst. rewrite eqb_refl' in E. discriminate.
Qed.

(** Reading [dict(items)]: the last item with the key wins. *)
Lemma dict_get_fold (items d : list (K * V)) (k : K) :
  dict_get eqb (fold_left (fun d kv => dict_set eqb d (fst kv) (snd kv)) items d) k
  = match dict_get eqb (rev items) k with
    | Some v => Some v
    | None => dict_get eqb d k
    end.
Proof.
  revert d; induction items as [|[k0 v0] items IH]; intros d; simpl; [reflexivity|].
  rewrite IH, dict_get_set. simpl.
  assert (Happ : forall l, dict_get eqb (l ++ [(k0, v0)]) k
                           = match dict_get eqb l k with
                             | Some v => Some v
                             | None => if eqb k k0 then Some v0 else None
                             end).
  { induction l as [|[a b] l IHl]; simpl; [reflexivity|].
    destruct (eqb k a); [reflexivity | apply IHl]. }
  rewrite Happ. destruct (dict_get eqb (rev items) k); [reflexivity|].
  destruct (eqb k k0); reflexivity.
Qed.

Lemma dict_get_of (items : list (K * V)) (k : K) :
  dict_get eqb (dict_of eqb items) k = dict_get eqb (rev items) k.
Proof.
  unfold dict_of. rewrite dict_get_fold. simpl.
  destruct (dict_get eqb (rev items) k); reflexivity.
Qed.

Lemma dict_get_In (d : list (K * V)) (k : K) (v : V) :
  dict_get eqb d k = Some v -> In (k, v) d.
Proof.
  induction d as [|[k0 v0] d IH]; simpl; [discriminate|].
  destruct (eqb k k0) eqn:E.
  - intros [= ->]. apply eqb_eq in E. subst. now left.
  - intros H. right. apply IH, H.
Qed.

Lemma dict_get_unique (d : list (K * V)) (k : K) (v : V) :
  NoDup (map fst d) -> In (k, v) d -> dict_get eqb d k = Some v.
Proof.
  induction d as [|[k0 v0] d IH]; simpl; [intros _ []|].
  intros Hnd [H|H].
  - injection H as -> ->. now rewrite eqb_refl'.
  - inversion Hnd; subst. rewrite eqb_neq'.
    + apply IH; assumption.
    + intros ->. apply H2. apply (in_map fst) in H. exact H.
Qed.

Lemma dict_get_absent (d : list (K * V)) (k : K) :
  dict_get eqb d k = None <-> ~ In k (map fst d).
Proof.
  induction d as [|[k0 v0] d IH]; simpl; [tauto|].
  destruct (eqb k k0) eqn:E.
  - apply eqb_eq in E. subst. split; [discriminate | intros H; exfalso; apply H; now left].
  - rewrite IH. split; [intros H [H'|H']; [subst; rewrite eqb_refl' in E; discriminate | tauto]
                       | tauto].
Qed.

End DictFacts.


Module VOCFacts.
Import VOC.

Lemma in_enumerate_from {T : Type} (t : list T) (s i : nat) (x : T) :
  In (i, x) (combine (seq s (length t)) t)
  <-> (s <= i)%nat /\ nth_error t (i - s) = Some x.
Proof.
  revert s; induction t as [|a t IH]; intros s; simpl.
  - split; [intros [] | intros [_ H]; destruct (i - s)%nat; discriminate].
  - rewrite IH. split.
    + intros [H|[Hle Hn]].
      * injection H as -> ->. split; [lia|]. now rewrite Nat.sub_diag.
      * split; [lia|]. replace (i - s)%nat with (Datatypes.S (i - Datatypes.S s)) by lia.
        exact Hn.
    + intros [Hle Hn]. destruct (Nat.eq_dec i s) as [->|Hne].
      * rewrite Nat.sub_diag in Hn. injection Hn as ->. now left.
      * right. split; [lia|].
        replace (i - s)%nat with (Datatypes.S (i - Datatypes.S s)) in Hn by lia.
        exact Hn.
Qed.

Lemma in_enumerate {T : Type} (t : list T) (i : nat) (x : T) :
  In (i, x) (enumerate t) <-> nth_error t i = Some x.
Proof.
  unfold enumerate. rewrite in_enumerate_from, Nat.sub_0_r.
  split; [tauto | intros H; split; [lia | exact H]].
Qed.

Lemma enumerate_keys {T : Type} (t : list T) :
  map fst (enumerate t) = seq 0 (length t).
Proof.
  unfold enumerate. generalize 0%nat. induction t as [|a t IH]; intros s; simpl;
    [reflexivity | now rewrite IH].
Qed.

Lemma enumerate_values {T : Type} (t : list T) : map snd (enumerate t) = t.
Proof.
  unfold enumerate. generalize 0%nat. induction t as [|a t IH]; intros s; simpl;
    [reflexivity | now rewrite IH].
Qed.

(** [id_to_label[i]] is the [i]-th class, [KeyError] past the end. *)
Lemma id_to_label_get (classes : list String.string) (i : nat) :
  dict_get Nat.eqb (id_to_label_of classes) i = nth_error classes i.
Proof.
  unfold id_to_label_of. rewrite (dict_get_of Nat.eqb Nat.eqb_eq).
  assert (Hnd : NoDup (map fst (rev (enumerate classes)))).
  { rewrite map_rev, enumerate_keys. apply NoDup_rev, seq_NoDup. }
  destruct (nth_error classes i) as [c|] eqn:E.
  - apply (dict_get_unique Nat.eqb Nat.eqb_eq _ _ _ Hnd).
    rewrite <- in_rev. apply in_enumerate, E.
  - apply (dict_get_absent Nat.eqb Nat.eqb_eq).
    rewrite map_rev, <- in_rev, enumerate_keys, in_seq.
    apply nth_error_None in E. lia.
Qed.

(** An id that [label_to_id] gives for a name is a position of that name. *)
Lemma label_to_id_sound (classes : list String.string) (c : String.string) (i : nat) :
  dict_get String.eqb (label_to_id_of classes) c = Some i -> nth_error classes i = Some c.
Proof.
  unfold label_to_id_of. rewrite (dict_get_of String.eqb String.eqb_eq).
  intros H. apply (dict_get_In String.eqb String.eqb_eq) in H.
  apply in_rev in H.
  apply in_map_iff in H. destruct H as ([i' c'] & [= <- <-] & H).
  apply in_enumerate, H.
Qed.

Lemma label_to_id_complete (classes : list String.string) (c : String.string) (i : nat) :
  NoDup classes -> nth_error classes i = Some c ->
  dict_get String.eqb (label_to_id_of classes) c = Some i.
Proof.
  intros Hnd H. unfold label_to_id_of. rewrite (dict_get_of String.eqb String.eqb_eq).
  apply (dict_get_unique String.eqb String.eqb_eq).
  - rewrite map_rev, map_map. simpl. fold (map (@snd nat String.string) (enumerate classes)).
    rewrite enumerate_values. apply NoDup_rev, Hnd.
  - rewrite <- in_rev. apply in_map_iff. exists (i, c). split; [reflexivity|].
    apply in_enumerate, H.
Qed.

Lemma label_to_id_absent (classes : list String.string) (c : String.string) :
  dict_get String.eqb (label_to_id_of classes) c = None <-> ~ In c classes.
Proof.
  unfold label_to_id_of. rewrite (dict_get_of String.eqb String.eqb_eq).
  rewrite (dict_get_absent String.eqb String.eqb_eq), map_rev, <- in_rev, map_map.
  simpl. fold (map (@snd nat String.string) (enumerate classes)).
  now rewrite enumerate_values.
Qed.

(** X12: for a tuple of distinct class names, the two tables are inverse
    to each other: [label_to_id[c]] is [i] exactly when [id_to_label[i]] is
    [c]. *)
Theorem tables_inverse (classes : list String.string) (c : String.string) (i : nat) :
  NoDup classes ->
  (dict_get String.eqb (label_to_id_of classes) c = Some i
   <-> dict_get Nat.eqb (id_to_label_of classes) i = Some c).
Proof.
  intros Hnd. rewrite id_to_label_get. split.
  - apply label_to_id_sound.
  - apply label_to_id_complete, Hnd.
Qed.

Lemma distinctb_NoDup (l : list String.string) : distinctb l = true -> NoDup l.
Proof.
  induction l as [|a l IH]; simpl; intros H; constructor.
  - apply andb_true_iff in H. destruct H as [H _]. apply negb_true_iff in H.
    intros Hin. assert (existsb (String.eqb a) l = true); [|congruence].
    apply existsb_exists. exists a. split; [exact Hin | apply String.eqb_refl].
  - apply IH. apply andb_true_iff in H. tauto.
Qed.

Lemma CLASSES_NoDup : NoDup CLASSES.
Proof. apply distinctb_NoDup. vm_compute. reflexivity. Qed.

Lemma CLASSES_length : length CLASSES = N_CLASSES.
Proof. reflexivity. Qed.

Import String.StringSyntax.
Local Open Scope string_scope.

Lemma tables_inverse_witness :
  dict_get String.eqb (label_to_id_of CLASSES) "dog" = Some 11%nat
  <-> dict_get Nat.eqb (id_to_label_of CLASSES) 11%nat = Some "dog".
Proof. apply tables_inverse. exact CLASSES_NoDup. Defined.

Lemma label_to_id_range (c : String.string) (i : nat) :
  dict_get String.eqb label_to_id c = Some i -> (i < N_CLASSES)%nat.
Proof.
  intros H. apply label_to_id_sound in H.
  rewrite <- CLASSES_length. apply nth_error_Some. congruence.
Qed.

End VOCFacts.

Module ParseAnnotationFacts.
Import ParseAnnotation.

Section CallFacts.
Variable lower_strip : String.string -> String.string.

(** A row of four entries, one below each of the object's coordinates. *)
Lemma bbox_row (obj : xml_object) (bbox : list Z) :
  mapM (fun t => v <- t ;; Some (v - 1)%Z) [xmin obj; ymin obj; xmax obj; ymax obj]
  = Some bbox ->
  exists a b c d,
    xmin obj = Some a /\ ymin obj = Some b /\ xmax obj = Some c /\ ymax obj = Some d /\
    bbox = [a - 1; b - 1; c - 1; d - 1]%Z.
Proof.
  simpl. destruct (xmin obj) as [a|], (ymin obj) as [b|], (xmax obj) as [c|],
    (ymax obj) as [d|]; simpl; try discriminate.
  intros [= <-]. exists a, b, c, d. repeat split; reflexivity.
Qed.

(** What the loop keeps of its accumulators. *)

Lemma call_loop_rows (Q : Z -> Prop) (keep_difficult : bool) (objs : list xml_object)
    (bboxes bboxes' : list (list Z)) (labels labels' : list nat) :
  Forall (coords_ok Q) objs ->
  rows_ok Q bboxes labels ->
  call_loop lower_strip keep_difficult objs bboxes labels = Some (bboxes', labels') ->
  rows_ok Q bboxes' labels' /\
  (length labels' <= length labels + length objs)%nat.
Proof.
  intros Hobjs. revert bboxes labels.
  induction Hobjs as [|obj objs Hobj Hobjs IH]; intros bboxes labels Hok H.
  - simpl in H. injection H as <- <-. split; [exact Hok | lia].
  - cbn [call_loop] in H.
    destruct (difficult obj) as [df|]; [|discriminate]. cbn [bind] in H.
    destruct (negb keep_difficult && (df =? 1)%Z).
    { destruct (IH _ _ Hok H) as [H1 H2]. split; [exact H1 | simpl; lia]. }
    destruct (name obj) as [n|]; [|discriminate]. cbn [bind] in H.
    destruct (negb (existsb (String.eqb (lower_strip n)) VOC.CLASSES)).
    { destruct (IH _ _ Hok H) as [H1 H2]. split; [exact H1 | simpl; lia]. }
    destruct (dict_get String.eqb VOC.label_to_id (lower_strip n)) as [label|] eqn:El;
      [|discriminate]. cbn [bind] in H.
    destruct (mapM _ [xmin obj; ymin obj; xmax obj; ymax obj]) as [bbox|] eqn:Eb;
      [|discriminate]. cbn [bind] in H.
    destruct (bbox_row obj bbox Eb) as (a & b & c & d & Ha & Hb & Hc & Hd & ->).
    assert (Hok' : rows_ok Q (bboxes ++ [[a - 1; b - 1; c - 1; d - 1]%Z])
                     (labels ++ [label])).
    { destruct Hok as (Hlen & Hlab & Hrows). repeat split.
      - rewrite !length_app. simpl. lia.
      - apply Forall_app. split; [exact Hlab|]. constructor; [|constructor].
        apply (VOCFacts.label_to_id_range _ _ El).
      - apply Forall_app. split; [exact Hrows|]. constructor; [|constructor].
        split; [reflexivity|].
        unfold coords_ok in Hobj.
        inversion Hobj as [|? ? H1 Hobj1]; subst.
        inversion Hobj1 as [|? ? H2 Hobj2]; subst.
        inversion Hobj2 as [|? ? H3 Hobj3]; subst.
        inversion Hobj3 as [|? ? H4 _]; subst.
        specialize (H1 a Ha). specialize (H2 b Hb). specialize (H3 c Hc).
        specialize (H4 d Hd). repeat constructor; assumption. }
    destruct (IH _ _ Hok' H) as [H1 H2]. split; [exact H1|].
    rewrite length_app in H2. simpl in *. lia.
Qed.


(** X13: when [__call__] returns, it returns as many boxes as labels,
    every label is a class id below [N_CLASSES], every box has four
    coordinates, and there are no more of them than [<object>] elements. *)
Theorem call_invariants (keep_difficult : bool) (objs : list xml_object)
    (bboxes : list (list Z)) (labels : list nat) :
  call lower_strip keep_difficult objs = Some (bboxes, labels) ->
  length bboxes = length labels /\
  Forall (fun l => (l < VOC.N_CLASSES)%nat) labels /\
  Forall (fun row => length row = 4%nat) bboxes /\
  (length labels <= length objs)%nat.
Proof.
  intros H. unfold call in H.
  destruct (call_loop_rows (fun _ => True) keep_difficult objs [] bboxes [] labels)
    as [(H1 & H2 & H3) H4]; try exact H.
  - apply Forall_forall. intros obj _. unfold coords_ok. repeat constructor.
  - repeat split; constructor.
  - repeat split; try assumption.
    apply Forall_forall. intros row Hrow. rewrite Forall_forall in H3.
    apply (H3 row Hrow).
Qed.

(** Parsing with [keep_difficult=False] is parsing, with all objects kept,
    the annotation without its difficult objects. *)
Lemma call_loop_difficult (objs : list xml_object) (bboxes : list (list Z))
    (labels : list nat) :
  call_loop lower_strip false objs bboxes labels
  = call_loop lower_strip true (List.filter (fun o => negb (is_difficult o)) objs)
              bboxes labels.
Proof.
  revert bboxes labels; induction objs as [|obj objs IH]; intros bboxes labels;
    [reflexivity|].
  cbn [call_loop List.filter]. unfold is_difficult at 1.
  destruct (difficult obj) as [df|] eqn:Ed.
  - cbn [bind]. destruct (df =? 1)%Z eqn:E1; cbn [negb andb].
    + apply IH.
    + cbn [call_loop]. rewrite Ed. cbn [bind negb andb].
      destruct (name obj) as [n|]; [|reflexivity]. cbn [bind].
      destruct (negb (existsb (String.eqb (lower_strip n)) VOC.CLASSES)); [apply IH|].
      destruct (dict_get String.eqb VOC.label_to_id (lower_strip n)); [|reflexivity].
      cbn [bind].
      destruct (mapM _ [xmin obj; ymin obj; xmax obj; ymax obj]); [|reflexivity].
      cbn [bind]. apply IH.
  - cbn [bind negb call_loop]. rewrite Ed. reflexivity.
Qed.

(** X14: with [keep_difficult=False] the parser behaves as with
    [keep_difficult=True] on the annotation without the objects whose
    [difficult] flag is 1: it returns the same or raises alike; a difficult
    object is skipped before its name and box are read. *)
Theorem call_drops_difficult (objs : list xml_object) :
  call lower_strip false objs
  = call lower_strip true (List.filter (fun o => negb (is_difficult o)) objs).
Proof. apply call_loop_difficult. Qed.

Lemma call_loop_total (keep_difficult : bool) (objs : list xml_object)
    (bboxes : list (list Z)) (labels : list nat) :
  Forall well_formed objs ->
  exists r, call_loop lower_strip keep_difficult objs bboxes labels = Some r.
Proof.
  intros H; revert bboxes labels.
  induction H as [|obj objs (Hd & Hn & Hx1 & Hy1 & Hx2 & Hy2) Hobjs IH];
    intros bboxes labels; [simpl; eauto|].
  cbn [call_loop].
  destruct (difficult obj) as [df|]; [|congruence]. cbn [bind].
  destruct (negb keep_difficult && (df =? 1)%Z); [apply IH|].
  destruct (name obj) as [n|]; [|congruence]. cbn [bind].
  destruct (negb (existsb (String.eqb (lower_strip n)) VOC.CLASSES)) eqn:E; [apply IH|].
  apply negb_false_iff, existsb_exists in E. destruct E as (c & Hc & Heq).
  apply String.eqb_eq in Heq. subst c.
  destruct (dict_get String.eqb VOC.label_to_id (lower_strip n)) as [label|] eqn:El.
  - cbn [bind]. destruct (xmin obj), (ymin obj), (xmax obj), (ymax obj); try congruence.
    simpl. apply IH.
  - exfalso. apply VOCFacts.label_to_id_absent in El. contradiction.
Qed.

(** X15: on an annotation where every object has an integer [difficult]
    flag, a name and four integer coordinates, [__call__] returns: the
    lookup in [label_to_id] never raises [KeyError], being guarded by the
    membership test in [classes]. *)
Theorem call_total (keep_difficult : bool) (objs : list xml_object) :
  Forall well_formed objs ->
  exists bboxes labels, call lower_strip keep_difficult objs = Some (bboxes, labels).
Proof.
  intros H. destruct (call_loop_total keep_difficult objs [] [] H) as [[bs ls] Hr].
  exists bs, ls. exact Hr.
Qed.

End CallFacts.

Import Annotations.

Lemma call_objects :
  call PyStr.lower_strip true objects
  = Some ([[47; 239; 194; 370]; [7; 11; 351; 497]]%Z, [11; 14]%nat).
Proof. vm_compute. reflexivity. Qed.

Lemma call_invariants_witness :
  length [[47; 239; 194; 370]; [7; 11; 351; 497]]%Z = length [11; 14]%nat /\
  Forall (fun l => (l < VOC.N_CLASSES)%nat) [11; 14]%nat /\
  Forall (fun row => length row = 4%nat) [[47; 239; 194; 370]; [7; 11; 351; 497]]%Z /\
  (length [11; 14]%nat <= length objects)%nat.
Proof. apply (call_invariants PyStr.lower_strip true objects). exact call_objects. Defined.

Lemma objects_well_formed : Forall well_formed objects.
Proof. repeat constructor; discriminate. Qed.

Lemma call_total_witness :
  exists bboxes labels, call PyStr.lower_strip false objects = Some (bboxes, labels).
Proof. apply call_total. exact objects_well_formed. Defined.

End ParseAnnotationFacts.

(** ** [__getitem__]: parsing, then filtering *)

Module GetItemFacts.
Import VOCDataset VOCDatasetFacts VOCDatasetExt VOCDatasetMore.
Import ParseAnnotation ParseAnnotationFacts GetItem.
Import Annotations.

Lemma row_box_pixel (bboxes : list (list Z)) :
  Forall (fun row => length row = 4%nat /\ Forall (fun v => (0 <= v)%Z) row) bboxes ->
  pixel_boxes (map row_box bboxes).
Proof.
  intros H. unfold pixel_boxes. apply Forall_forall. intros b Hb.
  apply in_map_iff in Hb. destruct Hb as (row & <- & Hrow).
  rewrite Forall_forall in H. destruct (H row Hrow) as [Hlen Hall].
  rewrite Forall_forall in Hall.
  unfold coords, row_box. cbn [x1 y1 x2 y2].
  repeat match goal with
         | |- Forall _ [] => apply Forall_nil
         | |- Forall _ (_ :: _) => apply Forall_cons
         | |- exists n : Z, _ /\ IZR ?z = IZR n =>
             exists z; split; [apply Hall, nth_In; lia | reflexivity]
         end.
Qed.

(** X16: in [__getitem__], for an annotation whose coordinates are all 1
    or more (VOC's are 1-based) and an image whose shape [filter] accepts, the
    detection targets after [filter] are the parsed boxes of positive width
    and height with their labels; if parsing raises, so does [__getitem__],
    and the small-box test never applies. *)
Theorem detection_targets_pixel (lower_strip : String.string -> String.string)
    (keep_difficult : bool) (shape : list nat) (h w : nat) (objs : list xml_object) :
  image_hw shape = Some (h, w) ->
  Forall (coords_ok (fun v => (0 <= v)%Z)) objs ->
  detection_targets lower_strip keep_difficult shape objs
  = (parsed <- call lower_strip keep_difficult objs ;;
     Some (unzip (List.filter (fun it => positive_size (fst it))
                    (combine (map row_box (fst parsed)) (map Z.of_nat (snd parsed)))))).
Proof.
  intros Hs Hobjs. unfold detection_targets.
  destruct (call lower_strip keep_difficult objs) as [[bboxes labels]|] eqn:Ec;
    [|reflexivity].
  cbn [bind fst snd]. apply (filter_pixel_boxes_eq shape h w); [exact Hs|].
  apply row_box_pixel.
  destruct (call_loop_rows lower_strip (fun v => (0 <= v)%Z) keep_difficult objs
              [] bboxes [] labels Hobjs) as [(_ & _ & H) _]; [|exact Ec|exact H].
  repeat split; constructor.
Qed.

Lemma detection_targets_pixel_witness :
  detection_targets PyStr.lower_strip true [375; 500; 3]%nat objects
  = (parsed <- call PyStr.lower_strip true objects ;;
     Some (unzip (List.filter (fun it => positive_size (fst it))
                    (combine (map row_box (fst parsed)) (map Z.of_nat (snd parsed)))))).
Proof.
  apply (detection_targets_pixel PyStr.lower_strip true [375; 500; 3]%nat 375 500).
  - reflexivity.
  - unfold objects, coords_ok. cbn [xmin ymin xmax ymax].
    repeat constructor; intros v [= <-]; lia.
Defined.

End GetItemFacts.

Module VOCDatasetInitFacts.
Import VOCDatasetInit.

Lemma string_leb_trans (a b c : String.string) :
  String.leb a b = true -> String.leb b c = true -> String.leb a c = true.
Proof.
  unfold String.leb. revert b c; induction a as [|x a IH]; intros [|y b] [|z c]; simpl;
    try (intros; reflexivity); try discriminate.
  unfold Ascii.compare.
  destruct (N.compare_spec (Ascii.N_of_ascii x) (Ascii.N_of_ascii y)) as [E1|E1|E1],
           (N.compare_spec (Ascii.N_of_ascii y) (Ascii.N_of_ascii z)) as [E2|E2|E2],
           (N.compare_spec (Ascii.N_of_ascii x) (Ascii.N_of_ascii z)) as [E3|E3|E3];
    try (intros; reflexivity); try discriminate; try lia.
  apply IH.
Qed.

Lemma string_leb_false (a b : String.string) :
  String.leb a b = false -> String.leb b a = true.
Proof. intros H. destruct (String.leb_total a b) as [H'|H']; congruence. Qed.

Lemma map_nth_seq {T : Type} (l : list T) (d : T) :
  map (fun i => nth i l d) (seq 0 (length l)) = l.
Proof.
  induction l as [|a l IH]; [reflexivity|].
  simpl. f_equal. rewrite <- seq_shift, map_map. exact IH.
Qed.

Lemma sorted_by_key_perm (l : list image_id) : Permutation (sorted_by_key l) l.
Proof.
  unfold sorted_by_key.
  pose proof (Permutation_map
                (fun i => nth i l (String.EmptyString, String.EmptyString))
                (argsort_perm String.leb (map id_key l))) as H.
  rewrite length_map, map_nth_seq in H. exact H.
Qed.

Lemma StronglySorted_of_map {T U : Type} (f : T -> U) (R : U -> U -> Prop) (l : list T) :
  StronglySorted R (map f l) -> StronglySorted (fun x y => R (f x) (f y)) l.
Proof.
  induction l as [|a l IH]; intros H; constructor.
  - apply IH. now inversion H.
  - inversion H as [|? ? _ Hall]; subst. rewrite Forall_forall in *.
    intros x Hx. apply Hall, in_map, Hx.
Qed.

Lemma sorted_by_key_sorted (l : list image_id) :
  StronglySorted key_leq (sorted_by_key l).
Proof.
  unfold key_leq.
  apply (StronglySorted_of_map id_key (fun a b => String.leb a b = true)).
  unfold sorted_by_key, argsort. rewrite !map_map.
  set (q := sort_pairs String.leb (combine (map id_key l) (seq 0 (length (map id_key l))))).
  assert (Hq : map (fun e => id_key (nth (snd e) l (String.EmptyString, String.EmptyString))) q
               = map fst q).
  { apply map_ext_in. intros [k i] Hin.
    apply (Permutation_in _ (sort_pairs_perm _ _)) in Hin.
    apply (in_combine_seq _ 0 i k String.EmptyString) in Hin.
    destruct Hin as [Hr Hn]. rewrite Nat.sub_0_r in Hn. simpl.
    rewrite <- Hn.
    symmetry. apply (map_nth id_key l (String.EmptyString, String.EmptyString) i). }
  rewrite Hq. apply StronglySorted_map_fst.
  apply (sort_pairs_sorted String.leb (fun a b => String.leb a b = true)).
  - auto.
  - apply string_leb_false.
  - apply string_leb_trans.
Qed.

(** Two lists in ascending key order with the same entries are the same
    list, when no two entries share a key. *)
Lemma sorted_unique (l1 l2 : list image_id) :
  (forall x y, In x l1 -> In y l1 -> id_key x = id_key y -> x = y) ->
  StronglySorted key_leq l1 -> StronglySorted key_leq l2 -> Permutation l1 l2 ->
  l1 = l2.
Proof.
  intros Hinj H1; revert l2 Hinj. induction H1 as [|a l1 Hs IH Ha]; intros l2 Hinj H2 Hp.
  - symmetry. apply Permutation_nil, Hp.
  - destruct H2 as [|b l2 Hs2 Hb].
    + apply Permutation_sym, Permutation_nil in Hp. discriminate.
    + assert (a = b) as <-.
      { rewrite Forall_forall in Ha, Hb.
        assert (In a (b :: l2)) as [E|Ia]
          by (apply (Permutation_in _ Hp); left; reflexivity); [now symmetry|].
        assert (In b (a :: l1)) as [E|Ib]
          by (apply (Permutation_in _ (Permutation_sym Hp)); left; reflexivity);
          [exact E|].
        apply Hinj; [left; reflexivity | right; exact Ib |].
        apply String.leb_antisym; [apply (Ha b Ib) | apply (Hb a Ia)]. }
      f_equal. apply IH; [| exact Hs2 | apply (Permutation_cons_inv Hp)].
      intros x y Hx Hy. apply Hinj; right; assumption.
Qed.

(** X17: the list of ids does not depend on the order in which the set
    yields its elements: two listings of the same set of ids sort to the
    same list, as long as no two ids of the set have the same key
    [basepath + id]. *)
Theorem sorted_ids_deterministic (ids listed listed' : list image_id) :
  lists_set ids listed -> lists_set ids listed' ->
  (forall x y, In x ids -> In y ids -> id_key x = id_key y -> x = y) ->
  sorted_ids listed = sorted_ids listed'.
Proof.
  intros [Hnd Hin] [Hnd' Hin'] Hinj. unfold sorted_ids.
  apply sorted_unique.
  - intros x y Hx Hy. apply (Permutation_in _ (sorted_by_key_perm listed)) in Hx, Hy.
    apply Hinj; apply Hin; assumption.
  - apply sorted_by_key_sorted.
  - apply sorted_by_key_sorted.
  - transitivity listed; [apply sorted_by_key_perm|].
    transitivity listed'; [|symmetry; apply sorted_by_key_perm].
    apply NoDup_Permutation; try assumption.
    intros x. rewrite Hin, Hin'. tauto.
Qed.

(** X18: the list of ids holds every collected id once, whatever number
    of files listed it, and in ascending order of the key [basepath + id]. *)
Theorem sorted_ids_sorted (ids listed : list image_id) :
  lists_set ids listed ->
  NoDup (sorted_ids listed) /\
  (forall x, In x (sorted_ids listed) <-> In x ids) /\
  StronglySorted (fun x y => String.leb (id_key x) (id_key y) = true) (sorted_ids listed).
Proof.
  intros [Hnd Hin]. unfold sorted_ids. repeat split.
  - apply (Permutation_NoDup (Permutation_sym (sorted_by_key_perm listed)) Hnd).
  - intros Hx. apply Hin. apply (Permutation_in _ (sorted_by_key_perm listed) Hx).
  - intros Hx. apply Hin in Hx.
    apply (Permutation_in _ (Permutation_sym (sorted_by_key_perm listed)) Hx).
  - apply sorted_by_key_sorted.
Qed.

(** Base paths of one length, as [root/VOC2007] and [root/VOC2012], give
    every id a key of its own. *)
Lemma append_inj (a a' b b' : String.string) :
  String.length a = String.length a' ->
  String.append a b = String.append a' b' -> a = a' /\ b = b'.
Proof.
  revert a'; induction a as [|x a IH]; intros [|x' a'] Hlen H; simpl in *;
    try discriminate.
  - split; [reflexivity | exact H].
  - injection H as -> H. injection Hlen as Hlen.
    destruct (IH a' Hlen H) as [-> ->]. split; reflexivity.
Qed.

Lemma id_key_inj (n : nat) (ids : list image_id) :
  Forall (fun x => String.length (fst x) = n) ids ->
  forall x y, In x ids -> In y ids -> id_key x = id_key y -> x = y.
Proof.
  intros Hall [a b] [a' b'] Hx Hy H. rewrite Forall_forall in Hall.
  pose proof (Hall _ Hx) as H1. pose proof (Hall _ Hy) as H2. simpl in *.
  unfold id_key in H. simpl in H.
  destruct (append_inj a a' b b') as [-> ->]; [congruence | exact H | reflexivity].
Qed.

Import Annotations.

Lemma listed_a_ok : lists_set collected listed_a.
Proof.
  split.
  - repeat constructor; simpl; intuition discriminate.
  - intros x. unfold collected, listed_a. simpl. tauto.
Qed.

Lemma listed_b_ok : lists_set collected listed_b.
Proof.
  split.
  - repeat constructor; simpl; intuition discriminate.
  - intros x. unfold collected, listed_b. simpl. tauto.
Qed.

Lemma sorted_ids_deterministic_witness : sorted_ids listed_a = sorted_ids listed_b.
Proof.
  apply (sorted_ids_deterministic collected).
  - exact listed_a_ok.
  - exact listed_b_ok.
  - apply (id_key_inj 9). repeat constructor.
Defined.

Lemma sorted_ids_sorted_witness :
  NoDup (sorted_ids listed_a) /\
  (forall x, In x (sorted_ids listed_a) <-> In x collected) /\
  StronglySorted (fun x y => String.leb (id_key x) (id_key y) = true) (sorted_ids listed_a).
Proof. apply sorted_ids_sorted. exact listed_a_ok. Defined.

End VOCDatasetInitFacts.
